(** * PageTransition: the hexagonal tile wipe between the dark and the paper page

    The repository holds two revisions of [PageTransition.tsx]:
    - [Sweep]  (src/unnamed/part_008): a horizontal wave, left-to-right on
      reveal and right-to-left on hide, with a separate draw radius;
    - [Radial] (src/src/components/PageTransition.tsx): a wave that spreads
      from an origin point.

    JavaScript numbers are modelled as exact rationals ([Q]): the arithmetic
    of the source is kept operation by operation, without rounding.  The
    host's [Math.sqrt], [Math.sin] and [Math.random] are not computed here;
    they enter through the [JSMath] interface.  NaN, infinities and
    division by zero are outside the model.  Canvas path construction
    ([hexCorner], [moveTo], [lineTo]) is recorded as one [FillHexagon]
    operation carrying the centre and the size handed to [drawHexagon];
    sizing the canvas and [ctx.scale] are left out, and so is the clean-up
    of the effect ([cancelAnimationFrame]): a run that is cut short is a run
    whose list of frame timestamps ends early.

    React is modelled as far as the handlers depend on it: a handler sees
    the state of the render that created it, [setState] takes effect at the
    next render, and an effect runs when its component is mounted or one of
    its dependencies has changed. *)

From Stdlib Require Import QArith Qround Lqa List ZArith Lia Bool String.
Import ListNotations.
Open Scope Q_scope.

(** ** Numbers and the host's Math object *)

Class JSMath := {
  Math_sqrt : Q -> Q;
  Math_sin : Q -> Q;
  (** [Math_random i] is the value returned by the i-th call of
      [Math.random()] made while the delays of one tile set are assigned. *)
  Math_random : nat -> Q
}.

(** What the language guarantees about the two host functions used for the
    stagger. *)
Definition sin_bounded (M : JSMath) : Prop :=
  forall t, -1 <= Math_sin t <= 1.

Definition random_unit (M : JSMath) : Prop :=
  forall i, 0 <= Math_random i /\ Math_random i < 1.

Definition Math_max (a b : Q) : Q := if Qlt_le_dec a b then b else a.
Definition Math_min (a b : Q) : Q := if Qlt_le_dec b a then b else a.
Definition Math_ceil (a : Q) : Z := Qceiling a.

(** [for (let i = 0; i < n; i++)] over an integer bound. *)
Definition upto (n : Z) : list Z := map Z.of_nat (seq 0 (Z.to_nat n)).

(** [xs.map((x, i) => f(i, x))], counting from [i]. *)
Fixpoint mapi_from {A B : Type} (f : nat -> A -> B) (i : nat) (xs : list A)
  : list B :=
  match xs with
  | [] => []
  | a :: rest => f i a :: mapi_from f (S i) rest
  end.

(** ** Tiles and canvas operations *)

Module Hex.
Record t := mk { x : Q; y : Q; delay : Q }.
(** [hex.delay = d], the tile keeping its place in the array. *)
Definition with_delay (h : t) (d : Q) : t := mk (x h) (y h) d.
End Hex.

Inductive Direction := reveal | hide.
Inductive WaveDirection := ltr | rtl.
Inductive Fill := lightColor | darkColor.

Inductive CanvasOp :=
| ClearRect (w h : Q)
| FillRect (fill : Fill) (w h : Q)
| FillHexagon (cx cy size : Q) (fill : Fill).

Definition is_tile_draw (op : CanvasOp) : bool :=
  match op with FillHexagon _ _ _ _ => true | _ => false end.

Definition tile_draws (ops : list CanvasOp) : list CanvasOp :=
  filter is_tile_draw ops.

Definition is_reveal (d : Direction) : bool :=
  match d with reveal => true | hide => false end.

(** ** Revision [Sweep] (src/unnamed/part_008) *)

Module Sweep.

Definition HEX_SIZE : Q := 40.
Definition HEX_DRAW_SIZE : Q := 48.
Definition WAVE_SPREAD : Q := 0.5.
Definition STAGGER_NOISE : Q := 0.03.
Definition DURATION : Q := 950.

Definition drawHexagon (cx cy size : Q) (fillStyle : Fill) : list CanvasOp :=
  if Qlt_le_dec size 1 then [] else [FillHexagon cx cy size fillStyle].

Definition easeOutQuart (t : Q) : Q := 1 - (1 - t) ^ 4.
Definition easeInQuart (t : Q) : Q := t * t * t * t.

Section WithMath.
Context {M : JSMath}.

Definition horizDist : Q := (HEX_SIZE * 2) * 0.72.
Definition vertDist : Q := (Math_sqrt 3 * HEX_SIZE) * 0.88.
Definition cols (width : Q) : Z := (Math_ceil (width / horizDist) + 8)%Z.
Definition rows (height : Q) : Z := (Math_ceil (height / vertDist) + 8)%Z.

Definition generateHexGrid (width height : Q) : list Hex.t :=
  let startX := - HEX_SIZE * 4 in
  let startY := - HEX_SIZE * 4 in
  flat_map (fun row =>
    map (fun col =>
      let x := startX + inject_Z col * horizDist in
      let y := startY + inject_Z row * vertDist
               + (if (col mod 2 =? 1)%Z then vertDist / 2 else 0) in
      Hex.mk x y 0) (upto (cols width))) (upto (rows height)).

Definition delayOf (width : Q) (direction : WaveDirection) (i : nat)
           (hex : Hex.t) : Q :=
  let minX := - HEX_SIZE * 4 in
  let maxX := width + HEX_SIZE * 4 in
  let range := maxX - minX in
  let normalizedX := (Hex.x hex - minX) / range in
  let verticalWave := Math_sin (Hex.y hex * 0.015) * 0.02 in
  let randomOffset := (Math_random i - 0.5) * STAGGER_NOISE in
  let baseDelay :=
    match direction with ltr => normalizedX | rtl => 1 - normalizedX end in
  Math_max 0 (Math_min 0.95
                (baseDelay * WAVE_SPREAD + verticalWave + randomOffset)).

Definition calculateDelays (hexes : list Hex.t) (width : Q)
           (direction : WaveDirection) : list Hex.t :=
  mapi_from (fun i hex => Hex.with_delay hex (delayOf width direction i hex))
            O hexes.
End WithMath.

Definition hexProgress (progress : Q) (hex : Hex.t) : Q :=
  Math_max 0 (Math_min 1 ((progress - Hex.delay hex) / (1 - WAVE_SPREAD))).

(** The body of one of the two [for (const hex of hexesRef.current)] loops
  of [animate]. *)
Definition drawTile (direction : Direction) (progress : Q) (hex : Hex.t)
  : list CanvasOp :=
  match direction with
  | reveal =>
    let easedProgress := easeOutQuart (hexProgress progress hex) in
    let scale := 1 - easedProgress in
    if Qlt_le_dec 0.01 scale
    then drawHexagon (Hex.x hex) (Hex.y hex) (HEX_DRAW_SIZE * scale) darkColor
    else []
  | hide =>
    let easedProgress := easeInQuart (hexProgress progress hex) in
    let scale := easedProgress in
    if Qlt_le_dec 0.01 scale
    then drawHexagon (Hex.x hex) (Hex.y hex) (HEX_DRAW_SIZE * scale) darkColor
    else []
  end.

(** Canvas operations of one call of [animate]. *)
Definition drawFrame (width height : Q) (direction : Direction)
         (progress : Q) (hexes : list Hex.t) : list CanvasOp :=
  ClearRect width height :: FillRect lightColor width height
  :: flat_map (drawTile direction progress) hexes.

(** "Draw initial frame immediately". *)
Definition drawInitialFrame (width height : Q) (direction : Direction)
         (hexes : list Hex.t) : list CanvasOp :=
  ClearRect width height :: FillRect lightColor width height
  :: match direction with
     | reveal =>
         flat_map (fun hex =>
           drawHexagon (Hex.x hex) (Hex.y hex) HEX_DRAW_SIZE darkColor) hexes
     | hide => []
     end.

End Sweep.

(** ** Revision [Radial] (src/src/components/PageTransition.tsx) *)

Module Radial.

Definition HEX_SIZE : Q := 32.
Definition WAVE_SPREAD : Q := 0.35.
Definition STAGGER_NOISE : Q := 0.06.
Definition DURATION : Q := 850.

Definition drawHexagon (cx cy size : Q) (fillStyle : Fill) : list CanvasOp :=
  if Qlt_le_dec size 0.5 then [] else [FillHexagon cx cy size fillStyle].

Definition easeInOutCubic (t : Q) : Q :=
  if Qlt_le_dec t 0.5 then 4 * t * t * t else 1 - (-2 * t + 2) ^ 3 / 2.

Section WithMath.
Context {M : JSMath}.

Definition horizDist : Q := (HEX_SIZE * 2) * 0.75 + 2.
Definition vertDist : Q := Math_sqrt 3 * HEX_SIZE + 2.
Definition cols (width : Q) : Z := (Math_ceil (width / horizDist) + 4)%Z.
Definition rows (height : Q) : Z := (Math_ceil (height / vertDist) + 4)%Z.

Definition generateHexGrid (width height : Q) : list Hex.t :=
  flat_map (fun row =>
    map (fun col =>
      let x := - HEX_SIZE * 2 + inject_Z col * horizDist in
      let y := - HEX_SIZE * 2 + inject_Z row * vertDist
               + (if (col mod 2 =? 1)%Z then vertDist / 2 else 0) in
      Hex.mk x y 0) (upto (cols width))) (upto (rows height)).

Definition delayOf (width height originX originY : Q) (i : nat)
           (hex : Hex.t) : Q :=
  let maxDist := Math_sqrt (width * width + height * height) in
  let dx := Hex.x hex - originX in
  let dy := Hex.y hex - originY in
  let dist := Math_sqrt (dx * dx + dy * dy) in
  let normalizedDist := dist / maxDist in
  let randomOffset := (Math_random i - 0.5) * STAGGER_NOISE in
  Math_max 0 (Math_min 1 (normalizedDist * WAVE_SPREAD + randomOffset)).

Definition calculateDelays (hexes : list Hex.t)
           (width height originX originY : Q) : list Hex.t :=
  mapi_from (fun i hex =>
               Hex.with_delay hex (delayOf width height originX originY i hex))
            O hexes.
End WithMath.

Definition hexProgress (progress : Q) (hex : Hex.t) : Q :=
  Math_max 0 (Math_min 1 ((progress - Hex.delay hex) / (1 - WAVE_SPREAD))).

(** The body of the [for (const hex of hexesRef.current)] loop of
  [animate]. *)
Definition drawTile (direction : Direction) (progress : Q) (hex : Hex.t)
  : list CanvasOp :=
  let easedProgress := easeInOutCubic (hexProgress progress hex) in
  match direction with
  | reveal =>
    if Qlt_le_dec easedProgress 1
    then drawHexagon (Hex.x hex) (Hex.y hex)
                     (HEX_SIZE * (1 - easedProgress)) darkColor
    else []
  | hide =>
    if Qlt_le_dec 0 easedProgress
    then drawHexagon (Hex.x hex) (Hex.y hex)
                     (HEX_SIZE * easedProgress) darkColor
    else []
  end.

Definition drawFrame (width height : Q) (direction : Direction)
         (progress : Q) (hexes : list Hex.t) : list CanvasOp :=
  ClearRect width height :: flat_map (drawTile direction progress) hexes.

(** "Draw initial frame". *)
Definition drawInitialFrame (width height : Q) (direction : Direction)
         (hexes : list Hex.t) : list CanvasOp :=
  ClearRect width height
  :: match direction with
     | reveal =>
         flat_map (fun hex =>
           drawHexagon (Hex.x hex) (Hex.y hex) HEX_SIZE darkColor) hexes
     | hide => []
     end.

End Radial.

(** ** The canvas component [HexGridCanvas]

    One definition for both revisions; [Revision] selects the constants and
    the drawing code of the file. *)

Inductive Revision := sweep | radial.

Definition DURATION (rv : Revision) : Q :=
  match rv with sweep => Sweep.DURATION | radial => Radial.DURATION end.

Definition WAVE_SPREAD (rv : Revision) : Q :=
  match rv with sweep => Sweep.WAVE_SPREAD | radial => Radial.WAVE_SPREAD end.

(** The literal of the test [progress >= ...] that fires [onPartialReveal]. *)
Definition partialRevealAt (rv : Revision) : Q :=
  match rv with sweep => 0.45 | radial => 0.55 end.

(** [onComplete] and [onPartialReveal] are optional props: the booleans say
    whether a handler is supplied.  [originX] and [originY] are props of the
    [radial] revision only. *)
Record Props := {
  isActive : bool;
  direction : Direction;
  onComplete : bool;
  onPartialReveal : bool;
  originX : Q;
  originY : Q
}.

(** What the effect reads from the document and the window. *)
Record Platform := {
  canvasRef : bool;        (* canvasRef.current is an element *)
  getContext2d : bool;     (* canvas.getContext('2d') is not null *)
  innerWidth : Q;
  innerHeight : Q;
  prefersReducedMotion : bool
}.

(** The refs of the component ([animationRef] only serves cancellation on
    clean-up, which is outside this model: the pending request is the
    [Scheduled] value threaded through [frames]). *)
Record Refs := {
  hexesRef : list Hex.t;
  partialFired : bool;
  startTime : option Q
}.

Inductive Event := PartialReveal | Complete.

Inductive TimeoutCallback :=
| fireCallbacks      (* () => { onPartialReveal?.(); onComplete?.(); } *)
| startAnimation.    (* () => { animationRef.current = requestAnimationFrame(animate); } *)

Inductive Scheduled :=
| SetTimeout (cb : TimeoutCallback) (ms : Q)
| RequestAnimationFrame.

(** One task of the event loop: what started it, the canvas operations it
    issued and the handlers it invoked, in order. *)
Inductive Trigger := EffectBody | TimerFired (ms : Q) | FrameFired (timestamp : Q).

Record Task := {
  trigger : Trigger;
  ops : list CanvasOp;
  events : list Event
}.

(** [handler?.()] *)
Definition call (supplied : bool) (e : Event) : list Event :=
  if supplied then [e] else [].

Section Canvas.
Context {M : JSMath}.
Variable rv : Revision.
Variable pf : Platform.
Variable props : Props.

Definition buildHexes : list Hex.t :=
  let width := innerWidth pf in
  let height := innerHeight pf in
  match rv with
  | sweep =>
      let waveDirection :=
        match direction props with reveal => ltr | hide => rtl end in
      Sweep.calculateDelays (Sweep.generateHexGrid width height) width
                            waveDirection
  | radial =>
      Radial.calculateDelays (Radial.generateHexGrid width height) width height
                             (originX props * width) (originY props * height)
  end.

Definition drawInitialFrame (hexes : list Hex.t) : list CanvasOp :=
  match rv with
  | sweep => Sweep.drawInitialFrame (innerWidth pf) (innerHeight pf)
                                    (direction props) hexes
  | radial => Radial.drawInitialFrame (innerWidth pf) (innerHeight pf)
                                      (direction props) hexes
  end.

Definition drawFrame (progress : Q) (hexes : list Hex.t) : list CanvasOp :=
  match rv with
  | sweep => Sweep.drawFrame (innerWidth pf) (innerHeight pf)
                             (direction props) progress hexes
  | radial => Radial.drawFrame (innerWidth pf) (innerHeight pf)
                               (direction props) progress hexes
  end.

(** The body of the [useEffect] of [HexGridCanvas]: the refs it leaves, the
    canvas operations it issues and what it schedules. *)
Record Started := {
  refs_after : Refs;
  initial_ops : list CanvasOp;
  scheduled : option Scheduled
}.

Definition effectBody (refs : Refs) : Started :=
  if negb (isActive props) then Build_Started refs [] None
  else if negb (canvasRef pf) then Build_Started refs [] None
  else if negb (getContext2d pf) then Build_Started refs [] None
  else
    let hexes := buildHexes in
    let refs' := {| hexesRef := hexes; partialFired := false;
                    startTime := None |} in
    if prefersReducedMotion pf
    then Build_Started refs' [] (Some (SetTimeout fireCallbacks 50))
    else Build_Started refs' (drawInitialFrame hexes)
           (Some match rv with
                 | sweep => SetTimeout startAnimation 16
                 | radial => RequestAnimationFrame
                 end).

Definition fireTimeout (cb : TimeoutCallback) (ms : Q)
  : Task * option Scheduled :=
  match cb with
  | fireCallbacks =>
      ({| trigger := TimerFired ms; ops := [];
          events := call (onPartialReveal props) PartialReveal
                    ++ call (onComplete props) Complete |}, None)
  | startAnimation =>
      ({| trigger := TimerFired ms; ops := []; events := [] |},
       Some RequestAnimationFrame)
  end.

(** [animate(timestamp)] *)
Definition animate (refs : Refs) (timestamp : Q)
  : Refs * Task * option Scheduled :=
  let start :=
    match startTime refs with None => timestamp | Some s => s end in
  let elapsed := timestamp - start in
  let progress := Math_min 1 (elapsed / DURATION rv) in
  let frame := drawFrame progress (hexesRef refs) in
  let fires := negb (partialFired refs)
               && (if Qlt_le_dec progress (partialRevealAt rv)
                   then false else true)
               && is_reveal (direction props) in
  let partial := if fires then call (onPartialReveal props) PartialReveal
                 else [] in
  let refs' := {| hexesRef := hexesRef refs;
                  partialFired := partialFired refs || fires;
                  startTime := Some start |} in
  if Qlt_le_dec progress 1
  then (refs', {| trigger := FrameFired timestamp; ops := frame;
                  events := partial |}, Some RequestAnimationFrame)
  else (refs', {| trigger := FrameFired timestamp; ops := frame;
                  events := partial ++ call (onComplete props) Complete |},
        None).

(** The frames the clock delivers while a request is pending. *)
Fixpoint frames (refs : Refs) (pending : option Scheduled) (ticks : list Q)
  : list Task :=
  match pending, ticks with
  | Some RequestAnimationFrame, timestamp :: rest =>
      let '(refs', task, next) := animate refs timestamp in
      task :: frames refs' next rest
  | _, _ => []
  end.

(** A run: the effect body, the timer it may have set, then the frames. *)
Definition run (refs : Refs) (ticks : list Q) : list Task :=
  let s := effectBody refs in
  {| trigger := EffectBody; ops := initial_ops s; events := [] |}
    :: match scheduled s with
       | Some (SetTimeout cb ms) =>
           let '(task, next) := fireTimeout cb ms in
           task :: frames (refs_after s) next ticks
       | next => frames (refs_after s) next ticks
       end.

End Canvas.

Definition events_of (log : list Task) : list Event := flat_map events log.
Definition ops_of (log : list Task) : list CanvasOp := flat_map ops log.

Definition noRefs : Refs :=
  {| hexesRef := []; partialFired := false; startTime := None |}.

(** ** The page component [PageTransition] *)

Inductive Phase := entering | visible | exiting.

(** The [useState] cells ([exitOrigin] exists in the [radial] revision). *)
Record State := {
  phase : Phase;
  showContent : bool;
  showCanvas : bool;
  exitOrigin : Q * Q
}.

(** [rendered] is the state the last render saw: the handlers created by
    that render, among them the [handleExit] installed as
    [window.__paperPageExit], close over it.  [queued] is the state after the
    [setState] calls made since; the next render shows it.  [exitTarget] is
    [window.__exitTarget] ([None]: the property is absent), [navigations]
    the calls of [navigate], oldest first, and [started] the directions of
    the canvas runs started so far. *)
Record Page := {
  rendered : State;
  queued : State;
  exitTarget : option string;
  navigations : list string;
  started : list Direction
}.

Definition setPhase (ph : Phase) (s : State) : State :=
  {| phase := ph; showContent := showContent s; showCanvas := showCanvas s;
     exitOrigin := exitOrigin s |}.

Definition setShowContent (b : bool) (s : State) : State :=
  {| phase := phase s; showContent := b; showCanvas := showCanvas s;
     exitOrigin := exitOrigin s |}.

Definition setShowCanvas (b : bool) (s : State) : State :=
  {| phase := phase s; showContent := showContent s; showCanvas := b;
     exitOrigin := exitOrigin s |}.

Definition setExitOrigin (o : Q * Q) (s : State) : State :=
  {| phase := phase s; showContent := showContent s;
     showCanvas := showCanvas s; exitOrigin := o |}.

Definition enqueue (f : State -> State) (p : Page) : Page :=
  {| rendered := rendered p; queued := f (queued p);
     exitTarget := exitTarget p; navigations := navigations p;
     started := started p |}.

(** [if (target)] on a string or [undefined]. *)
Definition truthy (v : option string) : bool :=
  match v with
  | Some s => negb (String.eqb s EmptyString)
  | None => false
  end.

Definition is_exiting (ph : Phase) : bool :=
  match ph with exiting => true | _ => false end.

(** The effect on [location.pathname]. *)
Definition onLocationChange (p : Page) : Page :=
  enqueue (setShowContent false)
    (enqueue (setShowCanvas true) (enqueue (setPhase entering) p)).

Definition handlePartialReveal (p : Page) : Page :=
  enqueue (setShowContent true) p.

Definition handleEnterComplete (p : Page) : Page :=
  enqueue (setShowCanvas false) (enqueue (setPhase visible) p).

Definition handleExitComplete (p : Page) : Page :=
  match exitTarget p with
  | Some target =>
      if truthy (Some target)
      then {| rendered := rendered p; queued := queued p;
              exitTarget := None;
              navigations := navigations p ++ [target];
              started := started p |}
      else p
  | None => p
  end.

(** [handleExit(targetPath, clickX?, clickY?)]; the [sweep] revision takes
    the target only. *)
Definition handleExit (rv : Revision) (pf : Platform) (targetPath : string)
           (clickX clickY : option Q) (p : Page) : Page :=
  if is_exiting (phase (rendered p)) then p
  else
    let p1 := {| rendered := rendered p; queued := queued p;
                 exitTarget := Some targetPath;
                 navigations := navigations p; started := started p |} in
    let p2 :=
      match rv, clickX, clickY with
      | radial, Some cx, Some cy =>
          enqueue (setExitOrigin (cx / innerWidth pf, cy / innerHeight pf)) p1
      | _, _, _ => p1
      end in
    enqueue (setShowContent false)
      (enqueue (setShowCanvas true) (enqueue (setPhase exiting) p2)).

(** The canvas the render mounts, with its props. *)
Definition canvasProps (s : State) : option Props :=
  match phase s with
  | entering =>
      Some {| isActive := showCanvas s; direction := reveal;
              onComplete := true; onPartialReveal := true;
              originX := 0.5; originY := 0.3 |}
  | exiting =>
      Some {| isActive := showCanvas s; direction := hide;
              onComplete := true; onPartialReveal := false;
              originX := fst (exitOrigin s); originY := snd (exitOrigin s) |}
  | visible => None
  end.

Definition same_direction (a b : Direction) : bool :=
  match a, b with
  | reveal, reveal | hide, hide => true
  | _, _ => false
  end.

(** The dependency list of the canvas effect, as far as the page can change
    it while [location.pathname] stays the same: the colours are fixed,
    [handlePartialReveal] and [handleEnterComplete] have no dependencies, and
    [handleExitComplete] depends on [navigate] only, whose identity follows
    the pathname.  A change of pathname while the hide canvas is mounted
    gives that canvas a new [onComplete] and runs its effect again; that case
    is outside this comparison, and the statements below that involve a
    location change leave the exiting phase out. *)
Definition same_deps (rv : Revision) (a b : Props) : bool :=
  Bool.eqb (isActive a) (isActive b)
  && same_direction (direction a) (direction b)
  && match rv with
     | sweep => true
     | radial => Qeq_bool (originX a) (originX b)
                 && Qeq_bool (originY a) (originY b)
     end.

(** The props of the run that a render from state [old] to state [new]
    starts: the canvas is mounted and active, and it is new or one of its
    dependencies changed. *)
Definition startsRun (rv : Revision) (old new : State) : option Props :=
  match canvasProps new with
  | Some pr =>
      if negb (isActive pr) then None
      else match canvasProps old with
           | Some pr0 => if same_deps rv pr0 pr then None else Some pr
           | None => Some pr
           end
  | None => None
  end.

Definition render (rv : Revision) (p : Page) : Page :=
  {| rendered := queued p; queued := queued p;
     exitTarget := exitTarget p; navigations := navigations p;
     started := started p ++
                match startsRun rv (rendered p) (queued p) with
                | Some pr => [direction pr]
                | None => []
                end |}.

(** The handler a canvas event reaches: the props of the mounted canvas. *)
Definition deliver (p : Page) (e : Event) : Page :=
  match phase (rendered p), e with
  | entering, PartialReveal => handlePartialReveal p
  | entering, Complete => handleEnterComplete p
  | exiting, Complete => handleExitComplete p
  | _, _ => p
  end.

(** A task of a canvas run reaches the page: its events are delivered in
    order, then React renders. *)
Definition deliverTask (rv : Revision) (p : Page) (t : Task) : Page :=
  render rv (fold_left deliver (events t) p).

(** A call of the installed exit handler, as [TransitionBackLink] makes it. *)
Record ExitRequest := {
  targetPath : string;
  clickX : option Q;
  clickY : option Q
}.

Definition request (rv : Revision) (pf : Platform) (p : Page)
           (r : ExitRequest) : Page :=
  handleExit rv pf (targetPath r) (clickX r) (clickY r) p.

(** An exit as the page lives it: the requests arrive through the installed
    handler within one render, React renders, and the run that this render
    starts, if any, is driven by [ticks].  [exitRun] follows that one run
    only.  It describes the code on a page where no other canvas run is
    alive, that is, a page at rest in the visible phase: the clean-up of the
    canvas effect cancels a pending frame but not the 50 ms timer of the
    reduced-motion branch nor the 16 ms start timer of the [sweep] revision,
    so a reveal run unmounted by the exit within that time would still reach
    the page's handlers. *)
Definition requestExits (rv : Revision) (pf : Platform)
           (requests : list ExitRequest) (p : Page) : Page :=
  fold_left (request rv pf) requests p.

Definition exitRun {M : JSMath} (rv : Revision) (pf : Platform)
           (requests : list ExitRequest) (ticks : list Q) (p : Page)
  : Page * list Task :=
  let p1 := requestExits rv pf requests p in
  let p2 := render rv p1 in
  match startsRun rv (rendered p1) (queued p1) with
  | Some pr =>
      let log := run rv pf pr noRefs ticks in
      (fold_left (deliverTask rv) log p2, log)
  | None => (p2, [])
  end.

(** No [setState] is waiting for a render. *)
Definition stable (p : Page) : Prop := rendered p = queued p.

(** The page at rest on a paper page. *)
Definition restingPage : Page :=
  {| rendered := {| phase := visible; showContent := true;
                    showCanvas := false; exitOrigin := (0.5, 0.5) |};
     queued := {| phase := visible; showContent := true;
                  showCanvas := false; exitOrigin := (0.5, 0.5) |};
     exitTarget := None; navigations := []; started := [] |}.

(** The handler calls a run of [animate] frames can make: the partial-reveal
    call sits behind the test on the direction, the completion call does
    not. *)
Definition partialCall (props : Props) : list Event :=
  call (onPartialReveal props && is_reveal (direction props)) PartialReveal.

Definition completeCall (props : Props) : list Event :=
  call (onComplete props) Complete.

(** The clock reaches the end of the run: some frame after the first comes
    [DURATION] or more after it ([startTime] is the first timestamp). *)
Definition drivenToEnd (rv : Revision) (ticks : list Q) : bool :=
  match ticks with
  | [] => false
  | first :: rest =>
      existsb (fun timestamp => Qle_bool (DURATION rv) (timestamp - first)) rest
  end.

(** The effect passes its guards: the canvas is active and the drawing
    surface is there. *)
Definition surfaceReady (pf : Platform) (props : Props) : bool :=
  isActive props && canvasRef pf && getContext2d pf.

(** ** The compositor as the specification words it *)

Definition clamp (v lo hi : Q) : Q := Math_max lo (Math_min hi v).

Definition spec_localProgress (spread globalProgress delay : Q) : Q :=
  clamp ((globalProgress - delay) / (1 - spread)) 0 1.

Definition quarticEaseOut (t : Q) : Q := 1 - (1 - t) ^ 4.
Definition quarticEaseIn (t : Q) : Q := t ^ 4.

Definition spec_easedProgress (d : Direction) (localProgress : Q) : Q :=
  match d with
  | reveal => quarticEaseOut localProgress
  | hide => quarticEaseIn localProgress
  end.

Definition spec_radius (drawRadius : Q) (d : Direction) (easedProgress : Q)
  : Q :=
  match d with
  | reveal => drawRadius * (1 - easedProgress)
  | hide => drawRadius * easedProgress
  end.

(** The grid generator and its loop bounds, by revision. *)
Definition generateHexGrid {M : JSMath} (rv : Revision)
  : Q -> Q -> list Hex.t :=
  match rv with
  | sweep => Sweep.generateHexGrid
  | radial => Radial.generateHexGrid
  end.

Definition rows {M : JSMath} (rv : Revision) : Q -> Z :=
  match rv with sweep => Sweep.rows | radial => Radial.rows end.

Definition cols (rv : Revision) : Q -> Z :=
  match rv with sweep => Sweep.cols | radial => Radial.cols end.

(** The per-tile drawing code, the draw radius and the size under which
    [drawHexagon] returns at once, by revision. *)
Definition drawTile (rv : Revision) : Direction -> Q -> Hex.t -> list CanvasOp :=
  match rv with sweep => Sweep.drawTile | radial => Radial.drawTile end.

Definition drawRadius (rv : Revision) : Q :=
  match rv with sweep => Sweep.HEX_DRAW_SIZE | radial => Radial.HEX_SIZE end.

Definition minDrawSize (rv : Revision) : Q :=
  match rv with sweep => 1 | radial => 0.5 end.

(** The easing each revision applies. *)
Definition easing (rv : Revision) (d : Direction) (localProgress : Q) : Q :=
  match rv with
  | sweep => spec_easedProgress d localProgress
  | radial => Radial.easeInOutCubic localProgress
  end.

(** ** A host and two screens for the worked examples

    The theorems below hold for every host.  The examples run on this one:
    square roots are integer square roots on the grid of step 2^-52, and the
    sine ripple and the jitter take their mean values (a sine of 0, a draw of
    1/2), which [sin_bounded] and [random_unit] admit. *)

Definition exampleMath : JSMath :=
  {| Math_sqrt := fun q =>
       (Z.sqrt (Qnum q * 2 ^ 104 / Z.pos (Qden q)) # 2 ^ 52);
     Math_sin := fun _ => 0;
     Math_random := fun _ => 0.5 |}.

Definition phone : Platform :=
  {| canvasRef := true; getContext2d := true;
     innerWidth := 375; innerHeight := 667;
     prefersReducedMotion := false |}.

Definition phoneReducedMotion : Platform :=
  {| canvasRef := true; getContext2d := true;
     innerWidth := 375; innerHeight := 667;
     prefersReducedMotion := true |}.

Definition phoneNoCanvas : Platform :=
  {| canvasRef := false; getContext2d := true;
     innerWidth := 375; innerHeight := 667;
     prefersReducedMotion := false |}.

(** The props [PageTransition] gives the canvas of each phase. *)
Definition enteringProps : Props :=
  {| isActive := true; direction := reveal; onComplete := true;
     onPartialReveal := true; originX := 0.5; originY := 0.3 |}.

Definition exitingProps : Props :=
  {| isActive := true; direction := hide; onComplete := true;
     onPartialReveal := false; originX := 0.5; originY := 0.5 |}.

(** The hide canvas after a click in the top left corner of the window. *)
Definition exitingFromCorner : Props :=
  {| isActive := true; direction := hide; onComplete := true;
     onPartialReveal := false; originX := 0; originY := 0 |}.

(** The largest delay of a tile set. *)
Definition maxDelay (hexes : list Hex.t) : Q :=
  fold_left (fun m hex => Math_max m (Hex.delay hex)) hexes 0.

(** A hide canvas that is handed a partial-reveal handler all the same. *)
Definition hideWithPartialHandler : Props :=
  {| isActive := true; direction := hide; onComplete := true;
     onPartialReveal := true; originX := 0.5; originY := 0.5 |}.

Definition exitTo (target : string) : ExitRequest :=
  {| targetPath := target; clickX := None; clickY := None |}.

(** A page whose hide run has been started and whose slot is empty. *)
Definition exitingPageNoTarget : Page :=
  {| rendered := {| phase := exiting; showContent := false;
                    showCanvas := true; exitOrigin := (0.5, 0.5) |};
     queued := {| phase := exiting; showContent := false;
                  showCanvas := true; exitOrigin := (0.5, 0.5) |};
     exitTarget := None; navigations := []; started := [hide] |}.

(** ** Further parts of the two files *)

(** The first lines of [animate]:
    [progress = Math.min(1, (timestamp - startTime.current) / DURATION)]. *)
Definition progressAt (rv : Revision) (start timestamp : Q) : Q :=
  Math_min 1 ((timestamp - start) / DURATION rv).

(** The clock reaches the partial-reveal mark: some frame after the first
    has a progress of [partialRevealAt] or more. *)
Definition drivenToPartial (rv : Revision) (ticks : list Q) : bool :=
  match ticks with
  | [] => false
  | first :: rest =>
      existsb (fun timestamp =>
                 Qle_bool (partialRevealAt rv) (progressAt rv first timestamp))
              rest
  end.

(** The pitches of the grid and the distance by which it starts before the
    left and top edges ([startX = startY = -HEX_SIZE * 4] in [sweep],
    [-HEX_SIZE * 2] in [radial]). *)
Definition horizDist (rv : Revision) : Q :=
  match rv with sweep => Sweep.horizDist | radial => Radial.horizDist end.

Definition vertDist {M : JSMath} (rv : Revision) : Q :=
  match rv with sweep => Sweep.vertDist | radial => Radial.vertDist end.

Definition overscan (rv : Revision) : Q :=
  match rv with
  | sweep => Sweep.HEX_SIZE * 4
  | radial => Radial.HEX_SIZE * 2
  end.

(** The body of the two nested loops of [generateHexGrid]: the tile pushed
    for [row] and [col]. *)
Definition tileAt {M : JSMath} (rv : Revision) (row col : Z) : Hex.t :=
  match rv with
  | sweep =>
      Hex.mk (- Sweep.HEX_SIZE * 4 + inject_Z col * Sweep.horizDist)
             (- Sweep.HEX_SIZE * 4 + inject_Z row * Sweep.vertDist
              + (if (col mod 2 =? 1)%Z then Sweep.vertDist / 2 else 0))
             0
  | radial =>
      Hex.mk (- Radial.HEX_SIZE * 2 + inject_Z col * Radial.horizDist)
             (- Radial.HEX_SIZE * 2 + inject_Z row * Radial.vertDist
              + (if (col mod 2 =? 1)%Z then Radial.vertDist / 2 else 0))
             0
  end.

(** The size a canvas operation hands to [drawHexagon]. *)
Definition drawnSize (op : CanvasOp) : Q :=
  match op with FillHexagon _ _ size _ => size | _ => 0 end.

(** A tile draw call as the frames issue them: a dark hexagon whose size
    lies between two bounds. *)
Definition darkHexagonBetween (lo hi : Q) (op : CanvasOp) : Prop :=
  match op with
  | FillHexagon _ _ size darkColor => lo <= size /\ size <= hi
  | _ => False
  end.

(** The run of the canvas that the rendered page mounts, driven by [ticks],
    its tasks reaching the handlers of the page. *)
Definition canvasRun {M : JSMath} (rv : Revision) (pf : Platform)
           (ticks : list Q) (p : Page) : Page * list Task :=
  match canvasProps (rendered p) with
  | Some pr =>
      let log := run rv pf pr noRefs ticks in
      (fold_left (deliverTask rv) log p, log)
  | None => (p, [])
  end.

(** The page as [PageTransition] mounts it: the initial values of its
    [useState] cells, and the reveal canvas started. *)
Definition freshPage : Page :=
  {| rendered := {| phase := entering; showContent := false;
                    showCanvas := true; exitOrigin := (0.5, 0.5) |};
     queued := {| phase := entering; showContent := false;
                  showCanvas := true; exitOrigin := (0.5, 0.5) |};
     exitTarget := None; navigations := []; started := [reveal] |}.

(** The page while its reveal canvas is mounted and shown. *)
Definition enteringWith (content : bool) (origin : Q * Q)
           (target : option string) (navs : list string)
           (runs : list Direction) : Page :=
  {| rendered := {| phase := entering; showContent := content;
                    showCanvas := true; exitOrigin := origin |};
     queued := {| phase := entering; showContent := content;
                  showCanvas := true; exitOrigin := origin |};
     exitTarget := target; navigations := navs; started := runs |}.


(** [handleClick] of [TransitionBackLink].  [mounted] is the page whose
    [handleExit] is installed as [window.__paperPageExit], if any.  The
    result says whether the default action of the click was prevented, and
    gives the page after the call.  The [sweep] revision calls
    [exitFn(to)], the [radial] one [exitFn(to, e.clientX, e.clientY)]. *)
Definition handleClick (rv : Revision) (pf : Platform) (to : string)
           (clientX clientY : Q) (mounted : option Page)
  : bool * option Page :=
  (true,
   match mounted with
   | Some p =>
       Some match rv with
            | sweep => handleExit rv pf to None None p
            | radial => handleExit rv pf to (Some clientX) (Some clientY) p
            end
   | None => None
   end).

(** ** Lists and clamps *)

Lemma mapi_from_nth_error {A B : Type} (f : nat -> A -> B) (xs : list A) :
  forall i n,
    nth_error (mapi_from f i xs) n = option_map (f (i + n)%nat) (nth_error xs n).
Proof.
  induction xs as [|a rest IH]; intros i n.
  - destruct n; reflexivity.
  - destruct n as [|n]; simpl.
    + now rewrite Nat.add_0_r.
    + rewrite IH. now rewrite Nat.add_succ_r.
Qed.

Lemma mapi_from_In {A B : Type} (f : nat -> A -> B) (xs : list A) :
  forall i b, In b (mapi_from f i xs) -> exists j a, In a xs /\ b = f j a.
Proof.
  induction xs as [|a rest IH]; intros i b Hin; simpl in Hin.
  - contradiction.
  - destruct Hin as [<- | Hin].
    + exists i, a. split; [now left | reflexivity].
    + destruct (IH _ _ Hin) as (j & a' & Ha & ->).
      exists j, a'. split; [now right | reflexivity].
Qed.

Lemma flat_map_rows_length {A B : Type} (f : A -> list B) (n : nat) :
  (forall a, List.length (f a) = n) ->
  forall xs, List.length (flat_map f xs) = (List.length xs * n)%nat.
Proof.
  intros Hf xs. induction xs as [|a rest IH]; simpl.
  - reflexivity.
  - rewrite length_app, Hf, IH. reflexivity.
Qed.

Lemma upto_length (n : Z) : List.length (upto n) = Z.to_nat n.
Proof. unfold upto. now rewrite length_map, length_seq. Qed.

Lemma Math_clamp_bounds (lo hi v : Q) :
  lo <= hi -> lo <= Math_max lo (Math_min hi v) /\ Math_max lo (Math_min hi v) <= hi.
Proof.
  intros Hle. unfold Math_max, Math_min.
  destruct (Qlt_le_dec v hi); destruct (Qlt_le_dec lo _); split; lra.
Qed.

Lemma Math_max_lt_r (a b c : Q) : c < b -> c < Math_max a b.
Proof. intros H. unfold Math_max. destruct (Qlt_le_dec a b); lra. Qed.

Lemma Math_min_lt (a b c : Q) : c < a -> c < b -> c < Math_min a b.
Proof. intros Ha Hb. unfold Math_min. destruct (Qlt_le_dec b a); lra. Qed.

Lemma Math_ceil_nonneg (q : Q) : 0 <= q -> (0 <= Math_ceil q)%Z.
Proof.
  intros Hq. change 0%Z with (Qceiling 0). now apply Qceiling_resp_le.
Qed.

Lemma Math_ceil_zero_div (d : Q) : Math_ceil (0 / d) = 0%Z.
Proof.
  unfold Math_ceil. change 0%Z with (Qceiling 0) at 2.
  apply Qceiling_comp. unfold Qdiv. ring.
Qed.

(** ** The tile grid *)

Lemma generateHexGrid_length {M : JSMath} (rv : Revision) (width height : Q) :
  List.length (generateHexGrid rv width height)
  = (Z.to_nat (rows rv height) * Z.to_nat (cols rv width))%nat.
Proof.
  destruct rv; cbn [generateHexGrid rows cols];
    unfold Sweep.generateHexGrid, Radial.generateHexGrid.
  - rewrite (flat_map_rows_length _ (Z.to_nat (Sweep.cols width))).
    + now rewrite upto_length.
    + intros row. now rewrite length_map, upto_length.
  - rewrite (flat_map_rows_length _ (Z.to_nat (Radial.cols width))).
    + now rewrite upto_length.
    + intros row. now rewrite length_map, upto_length.
Qed.

Lemma tile_draws_nil_frame (rv : Revision) (pf : Platform) (props : Props)
      (progress : Q) :
  tile_draws (drawFrame rv pf props progress []) = []
  /\ tile_draws (drawInitialFrame rv pf props []) = [].
Proof.
  destruct rv; split; cbn; try reflexivity;
    destruct (direction props); reflexivity.
Qed.

(** C7, as the claim states it, fails: a viewport of width 0 and height 0 is
    degenerate, yet the generator returns 8 x 8 = 64 tiles in the [sweep]
    revision and 4 x 4 = 16 in the [radial] one, whatever the host's
    [Math.sqrt] returns. *)
Lemma C7_zero_viewport_still_tiled :
  (forall M : JSMath, List.length (generateHexGrid sweep 0 0) = 64%nat)
  /\ (forall M : JSMath, List.length (generateHexGrid radial 0 0) = 16%nat).
Proof.
  split; intros M; rewrite generateHexGrid_length; cbn [rows cols];
    unfold Sweep.rows, Sweep.cols, Radial.rows, Radial.cols;
    rewrite !Math_ceil_zero_div; reflexivity.
Qed.

(** C7, amended: the generator has no guard for a degenerate viewport, and
    the tile radius is a constant of the file, not an input.  For every
    width and height it returns [rows] x [cols] tiles, where
    [cols = ceil(width / horizDist) + pad] and
    [rows = ceil(height / vertDist) + pad] (pad 8 in [sweep], 4 in
    [radial]); the tile set is empty exactly when one of the two counts is
    not positive.  Over an empty tile set a frame, and the initial frame,
    issue no tile draw call. *)
Theorem C7_grid_is_rows_by_cols :
  forall (M : JSMath) (rv : Revision) (width height : Q),
    List.length (generateHexGrid rv width height)
    = (Z.to_nat (rows rv height) * Z.to_nat (cols rv width))%nat
    /\ (generateHexGrid rv width height = []
        <-> (rows rv height <= 0 \/ cols rv width <= 0)%Z)
    /\ (forall pf props progress,
           tile_draws (drawFrame rv pf props progress []) = []
           /\ tile_draws (drawInitialFrame rv pf props []) = []).
Proof.
  intros M rv width height.
  pose proof (generateHexGrid_length rv width height) as Hlen.
  split; [exact Hlen|]. split.
  - split.
    + intros Hnil. rewrite Hnil in Hlen. cbn in Hlen. nia.
    + intros Hle. apply length_zero_iff_nil. rewrite Hlen.
      destruct Hle as [Hr | Hc]; nia.
  - intros pf props progress. apply tile_draws_nil_frame.
Qed.

(** ** The delay field *)

Lemma exampleMath_admissible :
  sin_bounded exampleMath /\ random_unit exampleMath
  /\ 0 < @Math_sqrt exampleMath 3.
Proof.
  split; [|split].
  - intros t. cbn. lra.
  - intros i. cbn. lra.
  - vm_compute. reflexivity.
Qed.

Lemma sweep_rows_positive {M : JSMath} (height : Q) :
  0 < Math_sqrt 3 -> 0 <= height -> (8 <= Sweep.rows height)%Z.
Proof.
  intros H3 Hh. unfold Sweep.rows.
  assert (Hc : (0 <= Math_ceil (height / Sweep.vertDist))%Z).
  { apply Math_ceil_nonneg. apply Qle_shift_div_l.
    - unfold Sweep.vertDist, Sweep.HEX_SIZE. lra.
    - lra. }
  lia.
Qed.

(** C2, as the claim states it, fails: on a screen 375 wide and 667 high the
    [sweep] revision generates 15 columns, and the tile of row 0, column 14
    (index 14 of the tile set) lies at x = 646.4, beyond [maxX] = 535.  On a
    reveal run its delay is
    [max(0, min(0.95, 0.5801... + 0.02 sin(..) + 0.03 (random - 0.5)))],
    above [WAVE_SPREAD] = 0.5 for every value of the sine and every jitter
    draw. *)
Lemma C2_delay_beyond_spread :
  exists n : nat,
    forall M : JSMath,
      sin_bounded M -> random_unit M -> 0 < Math_sqrt 3 ->
      exists hex,
        nth_error (buildHexes sweep phone enteringProps) n = Some hex
        /\ WAVE_SPREAD sweep < Hex.delay hex.
Proof.
  exists 14%nat. intros M Hs Hr H3.
  cbn [buildHexes phone enteringProps innerWidth innerHeight direction
       WAVE_SPREAD].
  unfold Sweep.calculateDelays. rewrite mapi_from_nth_error.
  unfold Sweep.generateHexGrid.
  assert (Hrows : exists k, Z.to_nat (Sweep.rows 667) = S k).
  { pose proof (sweep_rows_positive 667 H3 ltac:(lra)) as Hge.
    exists (Z.to_nat (Sweep.rows 667 - 1)). lia. }
  destruct Hrows as [k Hk]. unfold upto at 2. rewrite Hk.
  cbn [seq map flat_map].
  rewrite nth_error_app1.
  2:{ rewrite length_map, upto_length. vm_compute. lia. }
  change (Sweep.cols 375) with 15%Z.
  cbn [upto Z.to_nat Pos.to_nat Pos.iter_op Nat.add seq map nth_error
       option_map].
  eexists. split; [reflexivity|].
  cbn [Hex.delay Hex.with_delay]. unfold Sweep.delayOf.
  cbn [Hex.x Hex.y].
  match goal with
  | |- context [Math_sin ?t] => specialize (Hs t); set (s := Math_sin t) in *
  end.
  destruct (Hr 14%nat) as [Hr0 Hr1]. set (r := Math_random 14) in *.
  change (Z.of_nat 14) with 14%Z.
  match goal with |- context [?a / ?b] => set (nx := a / b) end.
  assert (Hnx : nx == 4032 # 3475) by (vm_compute; reflexivity).
  clearbody s r nx. unfold Sweep.WAVE_SPREAD, Sweep.STAGGER_NOISE.
  apply Math_max_lt_r, Math_min_lt; lra.
Qed.

(** The [radial] revision exceeds its spread as well: with the wave origin
    in a corner of the example phone screen, the farthest tiles get a delay
    above 0.35 (here on the example host). *)
Lemma radial_delay_beyond_spread_example :
  Qle_bool (maxDelay (@buildHexes exampleMath radial phone exitingFromCorner))
           (WAVE_SPREAD radial) = false.
Proof. vm_compute. reflexivity. Qed.

(** C2, amended: every tile that [calculateDelays] produces has a delay
    between 0 and the upper literal of the clamp, which is 0.95 in the
    [sweep] revision and 1 in the [radial] one, for every tile set,
    viewport, wave direction or origin, sine value and jitter draw.  The
    bound is not [WAVE_SPREAD]. *)
Theorem C2_delay_within_clamp :
  forall M : JSMath,
    (forall hexes width dir hex,
        In hex (Sweep.calculateDelays hexes width dir) ->
        0 <= Hex.delay hex /\ Hex.delay hex <= 0.95)
    /\ (forall hexes width height originX originY hex,
           In hex (Radial.calculateDelays hexes width height originX originY) ->
           0 <= Hex.delay hex /\ Hex.delay hex <= 1).
Proof.
  intros M. split.
  - intros hexes width dir hex Hin.
    apply mapi_from_In in Hin. destruct Hin as (j & a & _ & ->).
    cbn [Hex.delay Hex.with_delay]. unfold Sweep.delayOf.
    apply Math_clamp_bounds. lra.
  - intros hexes width height originX originY hex Hin.
    apply mapi_from_In in Hin. destruct Hin as (j & a & _ & ->).
    cbn [Hex.delay Hex.with_delay]. unfold Radial.delayOf.
    apply Math_clamp_bounds. lra.
Qed.

(** ** The compositor *)

Lemma drawHexagon_sweep_cases (cx cy size : Q) (fill : Fill) :
  (1 <= size /\ Sweep.drawHexagon cx cy size fill = [FillHexagon cx cy size fill])
  \/ (size < 1 /\ Sweep.drawHexagon cx cy size fill = []).
Proof.
  unfold Sweep.drawHexagon. destruct (Qlt_le_dec size 1); [right | left]; auto.
Qed.

Lemma drawHexagon_radial_cases (cx cy size : Q) (fill : Fill) :
  (0.5 <= size /\ Radial.drawHexagon cx cy size fill = [FillHexagon cx cy size fill])
  \/ (size < 0.5 /\ Radial.drawHexagon cx cy size fill = []).
Proof.
  unfold Radial.drawHexagon. destruct (Qlt_le_dec size 0.5); [right | left]; auto.
Qed.

Lemma easeInQuart_quartic (t : Q) : Sweep.easeInQuart t == quarticEaseIn t.
Proof. unfold Sweep.easeInQuart, quarticEaseIn. ring. Qed.

Lemma drawTile_only_tiles (rv : Revision) (d : Direction) (g : Q) (hex : Hex.t) :
  tile_draws (drawTile rv d g hex) = drawTile rv d g hex.
Proof.
  destruct rv, d; cbn [drawTile];
    unfold Sweep.drawTile, Radial.drawTile, Sweep.drawHexagon,
      Radial.drawHexagon;
    repeat match goal with
           | |- context [Qlt_le_dec ?a ?b] => destruct (Qlt_le_dec a b)
           end; reflexivity.
Qed.

Lemma tile_draws_flat_map (rv : Revision) (d : Direction) (g : Q)
      (hexes : list Hex.t) :
  tile_draws (flat_map (drawTile rv d g) hexes) = flat_map (drawTile rv d g) hexes.
Proof.
  induction hexes as [|hex rest IH]; [reflexivity|].
  cbn [flat_map]. unfold tile_draws in *. rewrite filter_app, IH.
  f_equal. apply drawTile_only_tiles.
Qed.

(** C4, as the claim states it, fails: in the [radial] revision a tile of
    delay 0 at global progress 0.1625 has local progress 1/4; the reveal
    frame draws it at size 30 = 32 x (1 - 4 (1/4)^3), the cubic ease-in-out,
    while the quartic ease-out of the claim gives 32 x (3/4)^4 = 10.125. *)
Lemma C4_radial_eases_cubic :
  exists size,
    drawTile radial reveal 0.1625 (Hex.mk 0 0 0)
    = [FillHexagon 0 0 size darkColor]
    /\ size == 30
    /\ spec_radius (drawRadius radial) reveal
         (spec_easedProgress reveal
            (spec_localProgress (WAVE_SPREAD radial) 0.1625 0)) == 10.125.
Proof.
  eexists. split; [vm_compute; reflexivity|]. split; vm_compute; reflexivity.
Qed.

(** C4, amended: on every tick and for every tile the compositor computes
    [localProgress = clamp((globalProgress - delay) / (1 - spread), 0, 1)]
    and eases it: in the [sweep] revision with the quartic ease-out on
    reveal and the quartic ease-in on hide, in the [radial] revision with
    the cubic ease-in-out in both directions.  With
    [radius = drawRadius x (1 - eased)] on reveal and [drawRadius x eased]
    on hide (draw radius 48 in [sweep], the tile radius 32 in [radial]), the
    tile is drawn once at its centre with that radius when the radius is at
    least the smallest drawn size (1 in [sweep], 0.5 in [radial]) and is
    skipped below it; the tile draw calls of a frame are those of its tiles,
    in order. *)
Theorem C4_tile_radius :
  forall (rv : Revision) (d : Direction) (globalProgress : Q) (hex : Hex.t),
    let localProgress :=
      spec_localProgress (WAVE_SPREAD rv) globalProgress (Hex.delay hex) in
    let radius := spec_radius (drawRadius rv) d (easing rv d localProgress) in
    (minDrawSize rv <= radius ->
     exists size,
       drawTile rv d globalProgress hex
       = [FillHexagon (Hex.x hex) (Hex.y hex) size darkColor]
       /\ size == radius)
    /\ (radius < minDrawSize rv -> drawTile rv d globalProgress hex = [])
    /\ (forall pf props hexes,
           direction props = d ->
           tile_draws (drawFrame rv pf props globalProgress hexes)
           = flat_map (drawTile rv d globalProgress) hexes).
Proof.
  intros rv d g hex localProgress radius.
  split; [|split].
  - intros Hbig. subst radius localProgress.
    destruct rv, d;
      cbn [drawTile minDrawSize drawRadius easing spec_radius
           spec_easedProgress WAVE_SPREAD] in *;
      unfold Sweep.drawTile, Radial.drawTile, Sweep.hexProgress,
        Radial.hexProgress, Sweep.easeOutQuart, spec_localProgress, clamp,
        quarticEaseOut, Sweep.HEX_DRAW_SIZE, Radial.HEX_SIZE in *;
      match goal with
      | |- context [Math_max 0 (Math_min 1 ?v)] =>
          set (lp := Math_max 0 (Math_min 1 v)) in *
      end.
    + destruct (Qlt_le_dec 0.01 (1 - (1 - (1 - lp) ^ 4))) as [Hs | Hs];
        [|exfalso; lra].
      match goal with
      | |- context [Sweep.drawHexagon ?x ?y ?s ?f] =>
          destruct (drawHexagon_sweep_cases x y s f) as [[_ ->] | [Hlt _]]
      end; [eexists; split; [reflexivity | reflexivity] | exfalso; lra].
    + pose proof (easeInQuart_quartic lp) as He.
      destruct (Qlt_le_dec 0.01 (Sweep.easeInQuart lp)) as [Hs | Hs];
        [|exfalso; lra].
      match goal with
      | |- context [Sweep.drawHexagon ?x ?y ?s ?f] =>
          destruct (drawHexagon_sweep_cases x y s f) as [[_ ->] | [Hlt _]]
      end; [eexists; split; [reflexivity | lra] | exfalso; lra].
    + destruct (Qlt_le_dec (Radial.easeInOutCubic lp) 1) as [Hs | Hs];
        [|exfalso; lra].
      match goal with
      | |- context [Radial.drawHexagon ?x ?y ?s ?f] =>
          destruct (drawHexagon_radial_cases x y s f) as [[_ ->] | [Hlt _]]
      end; [eexists; split; [reflexivity | reflexivity] | exfalso; lra].
    + destruct (Qlt_le_dec 0 (Radial.easeInOutCubic lp)) as [Hs | Hs];
        [|exfalso; lra].
      match goal with
      | |- context [Radial.drawHexagon ?x ?y ?s ?f] =>
          destruct (drawHexagon_radial_cases x y s f) as [[_ ->] | [Hlt _]]
      end; [eexists; split; [reflexivity | reflexivity] | exfalso; lra].
  - intros Hsmall. subst radius localProgress.
    destruct rv, d;
      cbn [drawTile minDrawSize drawRadius easing spec_radius
           spec_easedProgress WAVE_SPREAD] in *;
      unfold Sweep.drawTile, Radial.drawTile, Sweep.hexProgress,
        Radial.hexProgress, Sweep.easeOutQuart, spec_localProgress, clamp,
        quarticEaseOut, Sweep.HEX_DRAW_SIZE, Radial.HEX_SIZE in *;
      match goal with
      | |- context [Math_max 0 (Math_min 1 ?v)] =>
          set (lp := Math_max 0 (Math_min 1 v)) in *
      end;
      try pose proof (easeInQuart_quartic lp) as He;
      match goal with
      | |- context [Qlt_le_dec ?a ?b] => destruct (Qlt_le_dec a b)
      end; try reflexivity;
      match goal with
      | |- context [Sweep.drawHexagon ?x ?y ?s ?f] =>
          destruct (drawHexagon_sweep_cases x y s f) as [[Hge _] | [_ ->]]
      | |- context [Radial.drawHexagon ?x ?y ?s ?f] =>
          destruct (drawHexagon_radial_cases x y s f) as [[Hge _] | [_ ->]]
      end; try reflexivity; exfalso; lra.
  - intros pf props hexes Hd.
    pose proof (tile_draws_flat_map rv d g hexes) as Hflat.
    destruct rv; cbn [drawFrame]; unfold Sweep.drawFrame, Radial.drawFrame;
      rewrite Hd; exact Hflat.
Qed.

(** ** The frame loop *)

Lemma DURATION_pos (rv : Revision) : 0 < DURATION rv.
Proof. destruct rv; reflexivity. Qed.

Lemma partialRevealAt_range (rv : Revision) :
  0 < partialRevealAt rv /\ partialRevealAt rv <= 1.
Proof. destruct rv; split; cbn; lra. Qed.


Lemma progress_at_start (rv : Revision) (t : Q) :
  Math_min 1 ((t - t) / DURATION rv) == 0.
Proof.
  unfold Math_min.
  assert (H0 : (t - t) / DURATION rv == 0) by (unfold Qdiv; ring).
  destruct (Qlt_le_dec _ 1); lra.
Qed.

Lemma progress_at_end (rv : Revision) (s t : Q) :
  DURATION rv <= t - s -> Math_min 1 ((t - s) / DURATION rv) == 1.
Proof.
  intros Hd. unfold Math_min.
  destruct (Qlt_le_dec _ 1) as [Hlt | Hge]; [|reflexivity].
  exfalso. apply Qlt_not_le in Hlt. apply Hlt.
  apply Qle_shift_div_l; [apply DURATION_pos | lra].
Qed.

Section Loop.
Context {M : JSMath}.
Variable rv : Revision.
Variable pf : Platform.
Variable props : Props.

Lemma frames_none (refs : Refs) (ticks : list Q) :
  frames rv pf props refs None ticks = [].
Proof. destruct ticks; reflexivity. Qed.


Lemma events_of_cons (t : Task) (log : list Task) :
  events_of (t :: log) = events t ++ events_of log.
Proof. reflexivity. Qed.

Lemma frames_events_shape (ticks : list Q) :
  forall refs pending,
    let evs := events_of (frames rv pf props refs pending ticks) in
    if partialFired refs
    then evs = [] \/ evs = completeCall props
    else evs = [] \/ evs = partialCall props \/ evs = partialCall props ++ completeCall props.
Proof.
  unfold partialCall, completeCall.
  induction ticks as [|timestamp rest IH]; intros refs pending; cbn zeta.
  - destruct pending as [[]|]; cbn; destruct (partialFired refs); auto.
  - destruct pending as [[cb ms|]|];
      [cbn; destruct (partialFired refs); auto | | cbn; destruct (partialFired refs); auto].
    cbn [frames]. unfold animate.
    set (progress := Math_min 1 _).
    pose proof (partialRevealAt_range rv) as [Hthr0 Hthr1].
    destruct (Qlt_le_dec progress 1) as [Hlt | Hge];
      rewrite events_of_cons; cbn [events].
    + (* a further frame is requested *)
      match goal with
      | |- context [frames rv pf props ?r ?p rest] => specialize (IH r p)
      end.
      cbn zeta in IH. cbn [partialFired] in IH.
      destruct (partialFired refs);
        destruct (Qlt_le_dec progress (partialRevealAt rv));
        destruct (direction props);
        cbn [negb andb orb is_reveal app] in *;
        rewrite ?andb_true_r, ?andb_false_r in *; cbn [call app] in *;
        try exact IH.
      destruct IH as [-> | ->]; rewrite ?app_nil_r; auto.
    + rewrite frames_none. cbn [events_of flat_map]. rewrite app_nil_r.
      destruct (partialFired refs);
        destruct (Qlt_le_dec progress (partialRevealAt rv));
        try (exfalso; lra);
        destruct (direction props);
        cbn [negb andb orb is_reveal app] in *;
        rewrite ?andb_true_r, ?andb_false_r in *; cbn [call app] in *;
        auto.
Qed.

Lemma frames_events_complete (ticks : list Q) :
  forall refs s,
    startTime refs = Some s ->
    existsb (fun timestamp => Qle_bool (DURATION rv) (timestamp - s)) ticks = true ->
    events_of (frames rv pf props refs (Some RequestAnimationFrame) ticks)
    = if partialFired refs then completeCall props else partialCall props ++ completeCall props.
Proof.
  unfold partialCall, completeCall.
  induction ticks as [|timestamp rest IH]; intros refs s Hs Hex;
    [discriminate|].
  cbn [frames]. unfold animate. rewrite Hs.
  set (progress := Math_min 1 _).
  pose proof (partialRevealAt_range rv) as [Hthr0 Hthr1].
  cbn [existsb] in Hex.
  destruct (Qlt_le_dec progress 1) as [Hlt | Hge];
    rewrite events_of_cons; cbn [events].
  - destruct (Qle_bool (DURATION rv) (timestamp - s)) eqn:Hreach.
    + exfalso. apply Qle_bool_iff in Hreach.
      pose proof (progress_at_end rv s timestamp Hreach) as Hend.
      fold progress in Hend. lra.
    + cbn [orb] in Hex.
      match goal with
      | |- context [frames rv pf props ?r _ rest] =>
          specialize (IH r s eq_refl Hex)
      end.
      cbn [partialFired] in IH. rewrite IH.
      destruct (partialFired refs);
        destruct (Qlt_le_dec progress (partialRevealAt rv));
        destruct (direction props);
        cbn [negb andb orb is_reveal app];
        rewrite ?andb_true_r, ?andb_false_r; cbn [call app];
        try reflexivity.
  - rewrite frames_none. cbn [events_of flat_map]. rewrite app_nil_r.
    destruct (partialFired refs);
      destruct (Qlt_le_dec progress (partialRevealAt rv));
      try (exfalso; lra);
      destruct (direction props);
      cbn [negb andb orb is_reveal app];
      rewrite ?andb_true_r, ?andb_false_r; cbn [call app]; reflexivity.
Qed.

(** The first frame only records the start time. *)
Lemma frames_first (refs : Refs) (first : Q) (rest : list Q) :
  startTime refs = None ->
  events_of (frames rv pf props refs (Some RequestAnimationFrame) (first :: rest))
  = events_of (frames rv pf props
                 {| hexesRef := hexesRef refs; partialFired := partialFired refs;
                    startTime := Some first |}
                 (Some RequestAnimationFrame) rest).
Proof.
  intros Hs. cbn [frames]. unfold animate. rewrite Hs.
  pose proof (progress_at_start rv first) as H0.
  set (progress := Math_min 1 _) in *.
  pose proof (partialRevealAt_range rv) as [Hthr0 Hthr1].
  destruct (Qlt_le_dec progress 1) as [Hlt | Hge]; [|exfalso; lra].
  destruct (Qlt_le_dec progress (partialRevealAt rv)); [|exfalso; lra].
  rewrite events_of_cons. cbn [events]. rewrite andb_false_r. cbn [andb].
  rewrite orb_false_r. reflexivity.
Qed.
End Loop.

(** ** Runs of the canvas effect *)

Section Runs.
Context {M : JSMath}.
Variable rv : Revision.
Variable pf : Platform.
Variable props : Props.

Lemma run_not_ready (refs : Refs) (ticks : list Q) :
  surfaceReady pf props = false ->
  effectBody rv pf props refs = Build_Started refs [] None
  /\ run rv pf props refs ticks
     = [{| trigger := EffectBody; ops := []; events := [] |}].
Proof.
  unfold surfaceReady, run, effectBody. intros Hr.
  destruct (isActive props); cbn [negb andb] in *.
  - destruct (canvasRef pf); cbn [negb andb] in *.
    + rewrite Hr. cbn [negb]. split; [reflexivity|].
      cbn. now rewrite frames_none.
    + split; [reflexivity|]. cbn. now rewrite frames_none.
  - split; [reflexivity|]. cbn. now rewrite frames_none.
Qed.

Lemma run_reduced_motion (refs : Refs) (ticks : list Q) :
  surfaceReady pf props = true ->
  prefersReducedMotion pf = true ->
  run rv pf props refs ticks
  = [{| trigger := EffectBody; ops := []; events := [] |};
     {| trigger := TimerFired 50; ops := [];
        events := call (onPartialReveal props) PartialReveal
                  ++ call (onComplete props) Complete |}]
  /\ hexesRef (refs_after (effectBody rv pf props refs)) = buildHexes rv pf props.
Proof.
  unfold surfaceReady, run, effectBody. intros Hr Hm.
  apply andb_true_iff in Hr. destruct Hr as [Hr Hctx].
  apply andb_true_iff in Hr. destruct Hr as [Hact Hcv].
  rewrite Hact, Hcv, Hctx, Hm. cbn. rewrite frames_none. split; reflexivity.
Qed.

Lemma run_animated_events (refs : Refs) (ticks : list Q) :
  surfaceReady pf props = true ->
  prefersReducedMotion pf = false ->
  events_of (run rv pf props refs ticks)
  = events_of (frames rv pf props
                 {| hexesRef := buildHexes rv pf props; partialFired := false;
                    startTime := None |}
                 (Some RequestAnimationFrame) ticks).
Proof.
  unfold surfaceReady, run, effectBody. intros Hr Hm.
  apply andb_true_iff in Hr. destruct Hr as [Hr Hctx].
  apply andb_true_iff in Hr. destruct Hr as [Hact Hcv].
  rewrite Hact, Hcv, Hctx, Hm. cbn [negb scheduled refs_after initial_ops].
  destruct rv; reflexivity.
Qed.

(** The handlers a run invokes, whatever the props and the platform: at
    most the partial-reveal call followed by the completion call. *)
Lemma run_events_shape (refs : Refs) (ticks : list Q) :
  let evs := events_of (run rv pf props refs ticks) in
  evs = []
  \/ evs = call (onPartialReveal props) PartialReveal
           ++ call (onComplete props) Complete
  \/ evs = partialCall props
  \/ evs = partialCall props ++ completeCall props.
Proof.
  cbn zeta.
  destruct (surfaceReady pf props) eqn:Hready.
  - destruct (prefersReducedMotion pf) eqn:Hm.
    + destruct (run_reduced_motion refs ticks Hready Hm) as [-> _].
      right. left. cbn. now rewrite app_nil_r.
    + rewrite (run_animated_events refs ticks Hready Hm).
      match goal with
      | |- context [frames rv pf props ?r ?p ticks] =>
          pose proof (frames_events_shape rv pf props ticks r p) as Hs
      end.
      cbn zeta in Hs. cbn [partialFired] in Hs.
      destruct Hs as [-> | [-> | ->]]; auto.
  - destruct (run_not_ready refs ticks Hready) as [_ ->]. left. reflexivity.
Qed.

Lemma run_animated_complete (refs : Refs) (ticks : list Q) :
  surfaceReady pf props = true ->
  prefersReducedMotion pf = false ->
  drivenToEnd rv ticks = true ->
  events_of (run rv pf props refs ticks)
  = partialCall props ++ completeCall props.
Proof.
  intros Hready Hm Hend.
  rewrite (run_animated_events refs ticks Hready Hm).
  destruct ticks as [|first rest]; [discriminate|].
  rewrite frames_first by reflexivity.
  cbn [drivenToEnd] in Hend.
  now rewrite (frames_events_complete rv pf props rest _ first) by easy.
Qed.

End Runs.

(** ** Callback order in an Entering run *)

(** C3: in every Entering run (a reveal canvas with both handlers, as
    [PageTransition] mounts it), for every sequence of frame timestamps,
    strictly increasing or not, the handlers invoked are none, or
    [onPartialReveal] alone, or [onPartialReveal] then [onComplete]: each at
    most once, and [onComplete] never before [onPartialReveal].  When the
    run is driven to its end (the drawing surface is there, and the clock
    delivers a frame [DURATION] or more after the first one, or reduced
    motion is reported), [onPartialReveal] is invoked exactly once, then
    [onComplete] exactly once. *)
Theorem C3_entering_callbacks_once_in_order :
  forall (M : JSMath) (rv : Revision) (pf : Platform) (props : Props)
         (refs : Refs) (ticks : list Q),
    direction props = reveal ->
    onPartialReveal props = true ->
    onComplete props = true ->
    let evs := events_of (run rv pf props refs ticks) in
    (evs = [] \/ evs = [PartialReveal] \/ evs = [PartialReveal; Complete])
    /\ (surfaceReady pf props = true ->
        prefersReducedMotion pf = true \/ drivenToEnd rv ticks = true ->
        evs = [PartialReveal; Complete]).
Proof.
  intros M rv pf props refs ticks Hd Hp Hc. cbn zeta. split.
  - pose proof (run_events_shape rv pf props refs ticks) as Hs.
    cbn zeta in Hs. unfold partialCall, completeCall in Hs.
    rewrite Hd, Hp, Hc in Hs. cbn [call app andb is_reveal] in Hs.
    destruct Hs as [-> | [-> | [-> | ->]]]; auto.
  - intros Hready Hend.
    destruct (prefersReducedMotion pf) eqn:Hm.
    + destruct (run_reduced_motion rv pf props refs ticks Hready Hm) as [-> _].
      rewrite Hp, Hc. reflexivity.
    + destruct Hend as [Hend | Hend]; [discriminate|].
      rewrite (run_animated_complete rv pf props refs ticks Hready Hm Hend).
      unfold partialCall, completeCall. rewrite Hd, Hp, Hc. reflexivity.
Qed.

(** The Entering run of the [sweep] revision on the example phone screen,
    with frames at 0, 475 and 950 ms. *)
Lemma C3_entering_on_phone :
  events_of (@run exampleMath sweep phone enteringProps noRefs [0; 475; 950])
  = [PartialReveal; Complete].
Proof.
  apply (C3_entering_callbacks_once_in_order
           exampleMath sweep phone enteringProps noRefs [0; 475; 950]
           eq_refl eq_refl eq_refl).
  - reflexivity.
  - right. reflexivity.
Defined.

(** ** Hide runs and the partial-reveal handler *)

(** C9, as the claim states it, fails: on a platform that reports reduced
    motion, a hide canvas that is given an [onPartialReveal] handler invokes
    it (and then [onComplete]) from the timer callback, which does not test
    the direction. *)
Lemma C9_reduced_motion_hide_fires_partial :
  direction hideWithPartialHandler = hide
  /\ forall (M : JSMath) (rv : Revision) (refs : Refs) (ticks : list Q),
       events_of (run rv phoneReducedMotion hideWithPartialHandler refs ticks)
       = [PartialReveal; Complete].
Proof.
  split; [reflexivity|]. intros M rv refs ticks.
  now destruct (run_reduced_motion rv phoneReducedMotion hideWithPartialHandler
                  refs ticks eq_refl eq_refl) as [-> _].
Qed.

(** C9, amended: in every hide run that is animated (reduced motion is not
    reported), [onPartialReveal] is never invoked, even when a handler is
    supplied, because the threshold test of [animate] requires the
    direction to be reveal; and in every hide run that is given no handler,
    as [PageTransition] mounts it, there is nothing to invoke. *)
Theorem C9_hide_run_never_fires_partial :
  forall (M : JSMath) (rv : Revision) (pf : Platform) (props : Props)
         (refs : Refs) (ticks : list Q),
    direction props = hide ->
    prefersReducedMotion pf = false \/ onPartialReveal props = false ->
    ~ In PartialReveal (events_of (run rv pf props refs ticks)).
Proof.
  intros M rv pf props refs ticks Hd Hor Hin.
  destruct (surfaceReady pf props) eqn:Hready.
  - destruct (prefersReducedMotion pf) eqn:Hm.
    + destruct Hor as [Hor | Hp]; [discriminate|].
      destruct (run_reduced_motion rv pf props refs ticks Hready Hm)
        as [Hrun _].
      rewrite Hrun, Hp in Hin. cbn in Hin. rewrite app_nil_r in Hin.
      destruct (onComplete props); cbn in Hin;
        [destruct Hin as [Hin | []]; discriminate | contradiction].
    + rewrite (run_animated_events rv pf props refs ticks Hready Hm) in Hin.
      match type of Hin with
      | context [frames rv pf props ?r ?p ticks] =>
          pose proof (frames_events_shape rv pf props ticks r p) as Hs
      end.
      cbn zeta in Hs. cbn [partialFired] in Hs.
      unfold partialCall, completeCall in Hs. rewrite Hd in Hs.
      rewrite andb_false_r in Hs. cbn [call app is_reveal] in Hs.
      destruct Hs as [Hs | [Hs | Hs]]; rewrite Hs in Hin;
        try contradiction.
      destruct (onComplete props); cbn in Hin;
        [destruct Hin as [Hin | []]; discriminate | contradiction].
  - destruct (run_not_ready rv pf props refs ticks Hready) as [_ Hrun].
    rewrite Hrun in Hin. cbn in Hin. contradiction.
Qed.

(** An animated hide run that is handed a partial-reveal handler, on the
    example phone screen. *)
Lemma C9_animated_hide_on_phone :
  ~ In PartialReveal
      (events_of (@run exampleMath sweep phone hideWithPartialHandler noRefs
                       [0; 500; 1000])).
Proof.
  apply (C9_hide_run_never_fires_partial
           exampleMath sweep phone hideWithPartialHandler noRefs [0; 500; 1000]).
  - reflexivity.
  - left. reflexivity.
Defined.

(** ** Reduced motion *)

(** C5, as the claim states it, fails twice: the two handlers are invoked
    one after the other inside the single 50 ms timer callback, not in two
    separate tasks; and the effect body has generated the tile set before it
    looks at the preference (285 tiles on the example phone screen). *)
Lemma C5_one_timer_task_and_tiles_generated :
  (surfaceReady phoneReducedMotion enteringProps = true
   /\ prefersReducedMotion phoneReducedMotion = true)
  /\ (forall (M : JSMath) (rv : Revision) (refs : Refs) (ticks : list Q),
         exists task,
           In task (run rv phoneReducedMotion enteringProps refs ticks)
           /\ events task = [PartialReveal; Complete])
  /\ List.length
       (hexesRef
          (refs_after
             (@effectBody exampleMath sweep phoneReducedMotion enteringProps
                          noRefs))) = 285%nat.
Proof.
  split; [split; reflexivity|]. split.
  - intros M rv refs ticks.
    destruct (run_reduced_motion rv phoneReducedMotion enteringProps refs ticks
                eq_refl eq_refl) as [-> _].
    eexists. split; [right; left; reflexivity | reflexivity].
  - vm_compute. reflexivity.
Qed.

(** C5, amended: when reduced motion is reported and the drawing surface is
    there, a run requests no animation frame and issues no tile draw call
    (the effect returns before the initial frame, so no [clearRect],
    [fillRect] or hexagon fill is issued; sizing the canvas and [ctx.scale],
    which come before the test, are not drawing calls and are not recorded
    as [CanvasOp]).  Its tasks are the effect body and one timer that fires
    50 ms later and invokes the supplied [onPartialReveal] and then the
    supplied [onComplete], both inside that one timer callback.  The effect
    body has generated the tile set and assigned the delays before it looks
    at the preference; the tiles are never drawn. *)
Theorem C5_reduced_motion_run :
  forall (M : JSMath) (rv : Revision) (pf : Platform) (props : Props)
         (refs : Refs) (ticks : list Q),
    surfaceReady pf props = true ->
    prefersReducedMotion pf = true ->
    run rv pf props refs ticks
    = [{| trigger := EffectBody; ops := []; events := [] |};
       {| trigger := TimerFired 50; ops := [];
          events := call (onPartialReveal props) PartialReveal
                    ++ call (onComplete props) Complete |}]
    /\ tile_draws (ops_of (run rv pf props refs ticks)) = []
    /\ hexesRef (refs_after (effectBody rv pf props refs))
       = buildHexes rv pf props.
Proof.
  intros M rv pf props refs ticks Hready Hm.
  destruct (run_reduced_motion rv pf props refs ticks Hready Hm) as [Hrun Hhex].
  rewrite Hrun. split; [reflexivity|]. split; [reflexivity | exact Hhex].
Qed.

(** The Entering run on the example phone screen when reduced motion is
    reported: the frames offered by the clock are never requested. *)
Lemma C5_reduced_motion_on_phone :
  @run exampleMath sweep phoneReducedMotion enteringProps noRefs [0; 475; 950]
  = [{| trigger := EffectBody; ops := []; events := [] |};
     {| trigger := TimerFired 50; ops := [];
        events := [PartialReveal; Complete] |}].
Proof.
  apply (C5_reduced_motion_run
           exampleMath sweep phoneReducedMotion enteringProps noRefs
           [0; 475; 950]); reflexivity.
Defined.

(** ** A missing drawing surface *)

(** C6, as the claim states it, fails: with no canvas element the effect
    returns at its guard, and the Entering run invokes neither
    [onPartialReveal] nor [onComplete], whatever the clock delivers. *)
Lemma C6_missing_canvas_fires_nothing :
  canvasRef phoneNoCanvas = false
  /\ forall (M : JSMath) (rv : Revision) (refs : Refs) (ticks : list Q),
       events_of (run rv phoneNoCanvas enteringProps refs ticks) = [].
Proof.
  split; [reflexivity|]. intros M rv refs ticks.
  now destruct (run_not_ready rv phoneNoCanvas enteringProps refs ticks eq_refl)
    as [_ ->].
Qed.

(** C6, amended: if the canvas element or its 2D context is absent when the
    effect runs, the effect returns at its guard: it leaves the refs as they
    were, generates no tiles, issues no canvas operation and schedules
    nothing, and neither [onPartialReveal] nor [onComplete] is invoked, then
    or later. *)
Theorem C6_missing_surface_returns_early :
  forall (M : JSMath) (rv : Revision) (pf : Platform) (props : Props)
         (refs : Refs) (ticks : list Q),
    canvasRef pf = false \/ getContext2d pf = false ->
    effectBody rv pf props refs = Build_Started refs [] None
    /\ run rv pf props refs ticks
       = [{| trigger := EffectBody; ops := []; events := [] |}]
    /\ events_of (run rv pf props refs ticks) = [].
Proof.
  intros M rv pf props refs ticks Hmiss.
  assert (Hready : surfaceReady pf props = false).
  { unfold surfaceReady. destruct Hmiss as [-> | ->].
    - now rewrite andb_false_r.
    - now rewrite andb_false_r. }
  destruct (run_not_ready rv pf props refs ticks Hready) as [He Hrun].
  rewrite Hrun. split; [exact He|]. split; reflexivity.
Qed.

(** The Entering run on the example phone screen without a canvas
    element. *)
Lemma C6_missing_canvas_on_phone :
  @run exampleMath sweep phoneNoCanvas enteringProps noRefs [0; 475; 950]
  = [{| trigger := EffectBody; ops := []; events := [] |}].
Proof.
  apply (C6_missing_surface_returns_early
           exampleMath sweep phoneNoCanvas enteringProps noRefs [0; 475; 950]).
  left. reflexivity.
Defined.

(** ** The page: exit requests and the deferred navigation *)

Lemma same_deps_refl (rv : Revision) (pr : Props) : same_deps rv pr pr = true.
Proof.
  unfold same_deps. rewrite Bool.eqb_reflx.
  destruct (direction pr); destruct rv; cbn; rewrite ?Qeq_bool_refl;
    reflexivity.
Qed.

Lemma startsRun_same (rv : Revision) (s : State) : startsRun rv s s = None.
Proof.
  unfold startsRun. destruct (canvasProps s) as [pr|]; [|reflexivity].
  destruct (isActive pr); cbn [negb]; [|reflexivity].
  now rewrite same_deps_refl.
Qed.

Lemma render_stable (rv : Revision) (p : Page) : stable p -> render rv p = p.
Proof.
  unfold stable, render. intros Hs. destruct p as [r q t n st]. cbn in *.
  subst q. rewrite startsRun_same, app_nil_r. reflexivity.
Qed.

(** The guard of [handleExit]: a handler created by a render that saw the
    exiting phase drops the request. *)
Lemma handleExit_guard (rv : Revision) (pf : Platform) (r : ExitRequest)
      (p : Page) :
  phase (rendered p) = exiting -> request rv pf p r = p.
Proof. unfold request, handleExit. now intros ->. Qed.


(** A request through a handler that saw another phase writes the slot and
    queues the exiting state, and leaves the rendered state alone. *)
Lemma request_accepted (rv : Revision) (pf : Platform) (r : ExitRequest)
      (p : Page) :
  phase (rendered p) <> exiting ->
  let p' := request rv pf p r in
  rendered p' = rendered p
  /\ exitTarget p' = Some (targetPath r)
  /\ navigations p' = navigations p
  /\ started p' = started p
  /\ phase (queued p') = exiting
  /\ showCanvas (queued p') = true.
Proof.
  intros Hp. unfold request, handleExit.
  destruct (phase (rendered p)); try contradiction; cbn [is_exiting];
    destruct rv, (clickX r), (clickY r); cbn; auto 10.
Qed.

Lemma last_cons_default {A : Type} (xs : list A) :
  forall a d d', last (a :: xs) d = last (a :: xs) d'.
Proof.
  induction xs as [|b rest IH]; intros a d d'; [reflexivity|].
  change (last (a :: b :: rest) d) with (last (b :: rest) d).
  change (last (a :: b :: rest) d') with (last (b :: rest) d').
  apply IH.
Qed.

Lemma requestExits_last (rv : Revision) (pf : Platform)
      (requests : list ExitRequest) :
  forall (r : ExitRequest) (p : Page),
    phase (rendered p) <> exiting ->
    let p' := requestExits rv pf (r :: requests) p in
    rendered p' = rendered p
    /\ exitTarget p' = Some (targetPath (last requests r))
    /\ navigations p' = navigations p
    /\ started p' = started p
    /\ phase (queued p') = exiting
    /\ showCanvas (queued p') = true.
Proof.
  induction requests as [|r' rest IH]; intros r p Hp.
  - apply (request_accepted rv pf r p Hp).
  - destruct (request_accepted rv pf r p Hp) as (Hr & _ & Hn & Hst & _ & _).
    assert (Hp' : phase (rendered (request rv pf p r)) <> exiting)
      by now rewrite Hr.
    specialize (IH r' (request rv pf p r) Hp').
    cbn zeta in *. unfold requestExits in *. cbn [fold_left] in *.
    destruct IH as (H1 & H2 & H3 & H4 & H5 & H6).
    rewrite H1, H2, H3, H4, H5, H6, Hr, Hn, Hst.
    repeat split. f_equal. f_equal.
    change (last (r' :: rest) r) with (last (r' :: rest) r).
    destruct rest as [|e rest]; [reflexivity|].
    change (last (r' :: e :: rest) r) with (last (e :: rest) r).
    apply last_cons_default.
Qed.

(** The render that follows accepted requests starts one hide run. *)
Lemma startsRun_exit (rv : Revision) (old new : State) :
  phase old <> exiting -> phase new = exiting -> showCanvas new = true ->
  exists pr,
    startsRun rv old new = Some pr
    /\ direction pr = hide /\ isActive pr = true
    /\ onComplete pr = true /\ onPartialReveal pr = false.
Proof.
  intros Hold Hnew Hcv. unfold startsRun, canvasProps. rewrite Hnew, Hcv.
  cbn [isActive negb].
  destruct (phase old); try contradiction.
  - unfold same_deps. cbn [isActive direction]. rewrite andb_false_r.
    cbn [andb]. eexists. repeat split.
  - eexists. repeat split.
Qed.

(** While the hide canvas is mounted, a task of its run reaches
    [handleExitComplete] only, and the page stays as rendered. *)
Lemma deliver_exiting_events (evs : list Event) :
  forall p,
    phase (rendered p) = exiting ->
    let p' := fold_left deliver evs p in
    rendered p' = rendered p /\ queued p' = queued p
    /\ started p' = started p.
Proof.
  induction evs as [|e rest IH]; intros p Hp; cbn zeta; cbn [fold_left].
  - auto.
  - assert (Hd : rendered (deliver p e) = rendered p
                 /\ queued (deliver p e) = queued p
                 /\ started (deliver p e) = started p).
    { unfold deliver. rewrite Hp. destruct e; [auto|].
      unfold handleExitComplete.
      destruct (exitTarget p) as [target|]; [|auto].
      destruct (truthy (Some target)); auto. }
    destruct Hd as (Hr & Hq & Hst).
    assert (Hp' : phase (rendered (deliver p e)) = exiting) by now rewrite Hr.
    destruct (IH _ Hp') as (H1 & H2 & H3).
    rewrite H1, H2, H3. auto.
Qed.

Lemma deliverTasks_exiting (rv : Revision) (log : list Task) :
  forall p,
    stable p -> phase (rendered p) = exiting ->
    fold_left (deliverTask rv) log p = fold_left deliver (events_of log) p.
Proof.
  induction log as [|t rest IH]; intros p Hs Hp; [reflexivity|].
  cbn [fold_left]. unfold events_of. cbn [flat_map].
  rewrite fold_left_app. fold (events_of rest).
  destruct (deliver_exiting_events (events t) p Hp) as (Hr & Hq & _).
  cbn zeta in Hr, Hq.
  assert (Hs' : stable (fold_left deliver (events t) p)).
  { unfold stable in *. now rewrite Hr, Hq. }
  unfold deliverTask. rewrite (render_stable rv _ Hs').
  apply IH; [exact Hs' | now rewrite Hr].
Qed.

(** What an exit leaves behind once its hide run is over: the last target
    written is the one the completion handler reads. *)
Lemma exitRun_outcome {M : JSMath} (rv : Revision) (pf : Platform)
      (r : ExitRequest) (requests : list ExitRequest) (ticks : list Q)
      (p0 : Page) :
  phase (rendered p0) <> exiting ->
  canvasRef pf = true -> getContext2d pf = true ->
  prefersReducedMotion pf = true \/ drivenToEnd rv ticks = true ->
  let target := targetPath (last requests r) in
  let p := fst (exitRun rv pf (r :: requests) ticks p0) in
  let log := snd (exitRun rv pf (r :: requests) ticks p0) in
  started p = started p0 ++ [hide]
  /\ events_of log = [Complete]
  /\ stable p /\ phase (rendered p) = exiting
  /\ (if truthy (Some target)
      then navigations p = navigations p0 ++ [target] /\ exitTarget p = None
      else navigations p = navigations p0 /\ exitTarget p = Some target).
Proof.
  intros Hp Hcv Hctx Hend. cbn zeta. unfold exitRun.
  destruct (requestExits_last rv pf requests r p0 Hp)
    as (Hr & Ht & Hn & Hst & Hph & Hsc).
  cbn zeta in *.
  set (p1 := requestExits rv pf (r :: requests) p0) in *.
  assert (Hold : phase (rendered p1) <> exiting) by now rewrite Hr.
  destruct (startsRun_exit rv (rendered p1) (queued p1) Hold Hph Hsc)
    as (pr & Hrun & Hdir & Hact & Hoc & Hop).
  rewrite Hrun. cbn [fst snd].
  set (p2 := render rv p1).
  assert (Hp2 : rendered p2 = queued p1 /\ queued p2 = queued p1
                /\ exitTarget p2 = exitTarget p1
                /\ navigations p2 = navigations p1
                /\ started p2 = started p1 ++ [hide]).
  { unfold p2, render. cbn [rendered queued exitTarget navigations started].
    rewrite Hrun, Hdir. auto. }
  destruct Hp2 as (H2r & H2q & H2t & H2n & H2s).
  assert (Hstable : stable p2) by (unfold stable; now rewrite H2r, H2q).
  assert (Hexit : phase (rendered p2) = exiting) by now rewrite H2r.
  assert (Hready : surfaceReady pf pr = true)
    by (unfold surfaceReady; now rewrite Hact, Hcv, Hctx).
  assert (Hevs : events_of (run rv pf pr noRefs ticks) = [Complete]).
  { destruct (prefersReducedMotion pf) eqn:Hm.
    - destruct (run_reduced_motion rv pf pr noRefs ticks Hready Hm) as [-> _].
      rewrite Hop, Hoc. reflexivity.
    - destruct Hend as [Hend | Hend]; [discriminate|].
      rewrite (run_animated_complete rv pf pr noRefs ticks Hready Hm Hend).
      unfold partialCall, completeCall. rewrite Hop, Hoc. reflexivity. }
  rewrite (deliverTasks_exiting rv _ p2 Hstable Hexit), Hevs.
  cbn [fold_left]. unfold deliver. rewrite Hexit.
  unfold handleExitComplete. rewrite H2t, Ht.
  destruct (truthy (Some (targetPath (last requests r)))) eqn:Htruthy;
    unfold stable; cbn [started rendered queued navigations exitTarget];
    rewrite ?H2s, ?H2n, ?H2r, ?H2q, ?H2t, ?Hst, ?Hn, ?Ht; auto 10.
Qed.

(** A request that arrives after the render of an accepted one is dropped:
    the handler installed by that render saw the exiting phase. *)
Lemma request_after_render_dropped (rv : Revision) (pf : Platform)
      (a b : ExitRequest) (p0 : Page) :
  phase (rendered p0) <> exiting ->
  let p := render rv (request rv pf p0 a) in
  request rv pf p b = p /\ exitTarget p = Some (targetPath a).
Proof.
  intros Hp. cbn zeta.
  destruct (request_accepted rv pf a p0 Hp) as (_ & Ht & _ & _ & Hph & _).
  cbn zeta in *. split.
  - apply handleExit_guard. exact Hph.
  - exact Ht.
Qed.

(** C1, the code at the failing input: two requests made one right after
    the other reach the same installed handler, whose guard reads the phase
    of the render that created it.  Both pass the guard.  One hide run is
    started, but the slot holds the second target and the navigation at
    completion goes there, not to the first target. *)
Theorem C1_second_request_overwrites_target :
  forall (M : JSMath) (rv : Revision),
    let requests := [exitTo "/publications"; exitTo "/methods"] in
    let p := fst (exitRun rv phone requests [0; 500; 1000] restingPage) in
    exitTarget (requestExits rv phone requests restingPage) = Some "/methods"%string
    /\ started p = [hide]
    /\ navigations p = ["/methods"%string].
Proof.
  intros M rv. cbn zeta. split.
  - destruct rv; reflexivity.
  - assert (Hend : prefersReducedMotion phone = true
                   \/ drivenToEnd rv [0; 500; 1000] = true)
      by (right; destruct rv; reflexivity).
    destruct (exitRun_outcome rv phone (exitTo "/publications")
                [exitTo "/methods"] [0; 500; 1000] restingPage
                ltac:(discriminate) eq_refl eq_refl Hend)
      as (Hst & _ & _ & _ & Hnav).
    cbn zeta in *. cbn [last exitTo targetPath truthy] in Hnav.
    cbn in Hnav. destruct Hnav as [Hnav _]. split; assumption.
Qed.

(** C8, as the claim states it, fails: when the hide run completes on a
    page whose slot is empty, the completion handler does nothing, and after
    the next render the page is still in the exiting phase, canvas shown and
    content hidden; the visible phase is not entered. *)
Lemma C8_no_target_stays_exiting :
  exitTarget exitingPageNoTarget = None
  /\ forall rv : Revision,
       let p := render rv (deliver exitingPageNoTarget Complete) in
       phase (rendered p) = exiting /\ phase (queued p) = exiting
       /\ showCanvas (rendered p) = true /\ navigations p = [].
Proof.
  split; [reflexivity|]. intros rv. destruct rv; cbn; auto.
Qed.

(** C8, amended: if the hide run's [onComplete] fires while the slot holds
    no target, navigation is skipped and nothing else happens: the page,
    its exiting phase included, is left exactly as it was, and a render
    shows the same state. *)
Theorem C8_no_target_changes_nothing :
  forall (rv : Revision) (p : Page),
    phase (rendered p) = exiting ->
    exitTarget p = None ->
    deliver p Complete = p
    /\ navigations (deliver p Complete) = navigations p
    /\ phase (queued (deliver p Complete)) = phase (queued p)
    /\ phase (rendered (render rv (deliver p Complete))) = phase (queued p).
Proof.
  intros rv p Hp Hnone.
  assert (Heq : deliver p Complete = p).
  { unfold deliver, handleExitComplete. now rewrite Hp, Hnone. }
  rewrite Heq. repeat split.
Qed.

(** The completion handler on an exiting page whose slot is empty. *)
Lemma C8_no_target_on_exiting_page :
  deliver exitingPageNoTarget Complete = exitingPageNoTarget.
Proof.
  apply (C8_no_target_changes_nothing sweep exitingPageNoTarget);
    reflexivity.
Defined.



(** * Further properties of the two files *)

(** ** Easing *)

Lemma pow4_mono (s t : Q) : 0 <= s -> s <= t -> s * s * s * s <= t * t * t * t.
Proof.
  intros H0 Hst.
  assert (H1 : 0 <= (t - s) * ((t + s) * (t * t + s * s))).
  { apply Qmult_le_0_compat; [lra|].
    apply Qmult_le_0_compat; [lra|]. nra. }
  lra.
Qed.

Lemma pow3_mono (s t : Q) : 0 <= s -> s <= t -> s * s * s <= t * t * t.
Proof.
  intros H0 Hst.
  assert (H1 : 0 <= (t - s) * (t * t + t * s + s * s)).
  { apply Qmult_le_0_compat; [lra|]. nra. }
  lra.
Qed.

Lemma pow4_lt_1 (t : Q) : 0 <= t -> t < 1 -> t * t * t * t < 1.
Proof.
  intros H0 H1.
  assert (H : 0 < (1 - t) * ((1 + t) * (1 + t * t))).
  { apply Qmult_lt_0_compat; [lra|].
    apply Qmult_lt_0_compat; [lra|]. nra. }
  lra.
Qed.

Lemma pow3_pos (t : Q) : 0 < t -> 0 < t * t * t.
Proof.
  intros H. assert (0 < t * t) by (apply Qmult_lt_0_compat; lra).
  apply Qmult_lt_0_compat; lra.
Qed.

Lemma easeInQuart_mono (s t : Q) :
  0 <= s -> s <= t -> Sweep.easeInQuart s <= Sweep.easeInQuart t.
Proof. unfold Sweep.easeInQuart. apply pow4_mono. Qed.

Lemma easeOutQuart_mono (s t : Q) :
  s <= t -> t <= 1 -> Sweep.easeOutQuart s <= Sweep.easeOutQuart t.
Proof.
  intros Hst Ht. unfold Sweep.easeOutQuart.
  pose proof (pow4_mono (1 - t) (1 - s) ltac:(lra) ltac:(lra)) as H.
  lra.
Qed.

Lemma Qdiv_2 (x : Q) : x / 2 == x * 0.5.
Proof. unfold Qdiv. apply Qmult_comp; reflexivity. Qed.

Lemma easeInOutCubic_upper_branch (t : Q) :
  1 - (-2 * t + 2) ^ 3 / 2 == 1 - 4 * ((1 - t) * (1 - t) * (1 - t)).
Proof. rewrite Qdiv_2. ring. Qed.

Lemma easeInOutCubic_mono (s t : Q) :
  0 <= s -> s <= t -> t <= 1 ->
  Radial.easeInOutCubic s <= Radial.easeInOutCubic t.
Proof.
  intros H0 Hst Ht. unfold Radial.easeInOutCubic.
  destruct (Qlt_le_dec s 0.5) as [Hs | Hs];
    destruct (Qlt_le_dec t 0.5) as [Ht' | Ht'];
    rewrite ?easeInOutCubic_upper_branch.
  - pose proof (pow3_mono s t H0 Hst). lra.
  - pose proof (pow3_mono s 0.5 H0 ltac:(lra)) as H1.
    pose proof (pow3_mono (1 - t) 0.5 ltac:(lra) ltac:(lra)) as H2. lra.
  - lra.
  - pose proof (pow3_mono (1 - t) (1 - s) ltac:(lra) ltac:(lra)) as H. lra.
Qed.

Lemma easeInOutCubic_mirror (t : Q) :
  Radial.easeInOutCubic (1 - t) == 1 - Radial.easeInOutCubic t.
Proof.
  unfold Radial.easeInOutCubic.
  destruct (Qlt_le_dec (1 - t) 0.5); destruct (Qlt_le_dec t 0.5);
    rewrite ?easeInOutCubic_upper_branch; try lra.
  assert (Ht : t == 0.5) by lra.
  assert (H : (1 - t) * (1 - t) * (1 - t) == 0.125) by (rewrite Ht; reflexivity).
  assert (H' : (1 - (1 - t)) * (1 - (1 - t)) * (1 - (1 - t)) == 0.125)
    by (rewrite Ht; reflexivity).
  lra.
Qed.

Lemma easeInOutCubic_ends :
  Radial.easeInOutCubic 0 == 0 /\ Radial.easeInOutCubic 0.5 == 0.5
  /\ Radial.easeInOutCubic 1 == 1.
Proof. repeat split; vm_compute; reflexivity. Qed.

Lemma quartic_ends :
  Sweep.easeInQuart 0 == 0 /\ Sweep.easeInQuart 1 == 1
  /\ Sweep.easeOutQuart 0 == 0 /\ Sweep.easeOutQuart 1 == 1.
Proof. repeat split; vm_compute; reflexivity. Qed.

Lemma easing_range (rv : Revision) (d : Direction) (t : Q) :
  0 <= t -> t <= 1 -> 0 <= easing rv d t /\ easing rv d t <= 1.
Proof.
  intros H0 H1.
  destruct quartic_ends as (Hi0 & Hi1 & Ho0 & Ho1).
  destruct easeInOutCubic_ends as (Hc0 & _ & Hc1).
  destruct rv; cbn [easing]; [destruct d; cbn [spec_easedProgress]|].
  - change (quarticEaseOut t) with (Sweep.easeOutQuart t).
    pose proof (easeOutQuart_mono 0 t H0 H1).
    pose proof (easeOutQuart_mono t 1 H1 ltac:(lra)). lra.
  - rewrite <- easeInQuart_quartic.
    pose proof (easeInQuart_mono 0 t ltac:(lra) H0).
    pose proof (easeInQuart_mono t 1 H0 H1). lra.
  - pose proof (easeInOutCubic_mono 0 t ltac:(lra) H0 H1).
    pose proof (easeInOutCubic_mono t 1 H0 H1 ltac:(lra)). lra.
Qed.

Lemma easing_hide_below_1 (rv : Revision) (t : Q) :
  0 <= t -> t < 1 -> easing rv hide t < 1.
Proof.
  intros H0 H1. destruct rv; cbn [easing spec_easedProgress].
  - rewrite <- easeInQuart_quartic. unfold Sweep.easeInQuart.
    now apply pow4_lt_1.
  - unfold Radial.easeInOutCubic.
    destruct (Qlt_le_dec t 0.5) as [Ht | Ht];
      rewrite ?easeInOutCubic_upper_branch.
    + pose proof (pow3_mono t 0.5 H0 ltac:(lra)). lra.
    + pose proof (pow3_pos (1 - t) ltac:(lra)). lra.
Qed.

(** X1: the two quartic easings of the [sweep] revision map [0, 1] into
    [0, 1], keep 0 and 1 fixed and never decrease; the ease-out is the
    mirror image of the ease-in, and it is never behind it. *)
Theorem X1_quartic_easings :
  forall s t : Q,
    0 <= s -> s <= t -> t <= 1 ->
    (Sweep.easeInQuart s <= Sweep.easeInQuart t
     /\ Sweep.easeOutQuart s <= Sweep.easeOutQuart t)
    /\ (0 <= Sweep.easeInQuart t /\ Sweep.easeInQuart t <= 1)
    /\ (0 <= Sweep.easeOutQuart t /\ Sweep.easeOutQuart t <= 1)
    /\ Sweep.easeOutQuart t == 1 - Sweep.easeInQuart (1 - t)
    /\ Sweep.easeInQuart t <= Sweep.easeOutQuart t
    /\ (Sweep.easeInQuart 0 == 0 /\ Sweep.easeInQuart 1 == 1
        /\ Sweep.easeOutQuart 0 == 0 /\ Sweep.easeOutQuart 1 == 1).
Proof.
  intros s t H0 Hst H1.
  destruct quartic_ends as (Hi0 & Hi1 & Ho0 & Ho1).
  pose proof (easeInQuart_mono s t H0 Hst) as Hin.
  pose proof (easeOutQuart_mono s t Hst H1) as Hout.
  pose proof (easeInQuart_mono 0 t ltac:(lra) ltac:(lra)) as Hin0.
  pose proof (easeInQuart_mono t 1 ltac:(lra) H1) as Hin1.
  pose proof (easeOutQuart_mono 0 t ltac:(lra) H1) as Hout0.
  pose proof (easeOutQuart_mono t 1 H1 ltac:(lra)) as Hout1.
  assert (Hmirror : Sweep.easeOutQuart t == 1 - Sweep.easeInQuart (1 - t))
    by (unfold Sweep.easeOutQuart, Sweep.easeInQuart; ring).
  assert (Hahead : Sweep.easeInQuart t <= Sweep.easeOutQuart t).
  { rewrite Hmirror. unfold Sweep.easeInQuart.
    assert (Ha : 0 <= t * (1 - t)) by (apply Qmult_le_0_compat; lra).
    assert (Hb : 0 <= (t * (1 - t)) * (2 - t * (1 - t)))
      by (apply Qmult_le_0_compat; nra).
    lra. }
  repeat split; try assumption; lra.
Qed.

(** The quartic easings between a quarter and three quarters of the way. *)
Lemma X1_quartic_easings_example :
  Sweep.easeInQuart 0.25 <= Sweep.easeInQuart 0.75
  /\ Sweep.easeOutQuart 0.25 <= Sweep.easeOutQuart 0.75.
Proof.
  apply (X1_quartic_easings 0.25 0.75); lra.
Defined.

(** X2: the cubic ease-in-out of the [radial] revision maps [0, 1] into
    [0, 1], keeps 0, 1/2 and 1 fixed, never decreases, and is symmetric about
    the midpoint: [ease(1 - t) = 1 - ease(t)]. *)
Theorem X2_cubic_easing :
  forall s t : Q,
    0 <= s -> s <= t -> t <= 1 ->
    Radial.easeInOutCubic s <= Radial.easeInOutCubic t
    /\ (0 <= Radial.easeInOutCubic t /\ Radial.easeInOutCubic t <= 1)
    /\ Radial.easeInOutCubic (1 - t) == 1 - Radial.easeInOutCubic t
    /\ (Radial.easeInOutCubic 0 == 0 /\ Radial.easeInOutCubic 0.5 == 0.5
        /\ Radial.easeInOutCubic 1 == 1).
Proof.
  intros s t H0 Hst H1.
  destruct easeInOutCubic_ends as (Hc0 & Hch & Hc1).
  pose proof (easeInOutCubic_mono s t H0 Hst H1) as Hm.
  pose proof (easeInOutCubic_mono 0 t ltac:(lra) ltac:(lra) H1) as Hm0.
  pose proof (easeInOutCubic_mono t 1 ltac:(lra) H1 ltac:(lra)) as Hm1.
  pose proof (easeInOutCubic_mirror t) as Hmir.
  repeat split; try assumption; lra.
Qed.

(** The cubic easing between a quarter and three quarters of the way. *)
Lemma X2_cubic_easing_example :
  Radial.easeInOutCubic 0.25 <= Radial.easeInOutCubic 0.75.
Proof.
  apply (X2_cubic_easing 0.25 0.75); lra.
Defined.

(** ** Tiles between their start and end states *)

Lemma WAVE_SPREAD_range (rv : Revision) : 0 < WAVE_SPREAD rv /\ WAVE_SPREAD rv < 1.
Proof. destruct rv; split; reflexivity. Qed.

Lemma localProgress_range (rv : Revision) (g delay : Q) :
  0 <= spec_localProgress (WAVE_SPREAD rv) g delay
  /\ spec_localProgress (WAVE_SPREAD rv) g delay <= 1.
Proof. unfold spec_localProgress, clamp. apply Math_clamp_bounds. lra. Qed.

Lemma localProgress_before_delay (rv : Revision) (g delay : Q) :
  g <= delay -> spec_localProgress (WAVE_SPREAD rv) g delay = 0.
Proof.
  intros Hg. pose proof (WAVE_SPREAD_range rv) as [Hs0 Hs1].
  unfold spec_localProgress, clamp.
  assert (Hv : (g - delay) / (1 - WAVE_SPREAD rv) <= 0)
    by (apply Qle_shift_div_r; lra).
  unfold Math_max, Math_min.
  destruct (Qlt_le_dec (_ / _) 1); [|exfalso; lra].
  destruct (Qlt_le_dec 0 _); [exfalso; lra | reflexivity].
Qed.

Lemma localProgress_after_span (rv : Revision) (g delay : Q) :
  delay + (1 - WAVE_SPREAD rv) <= g ->
  spec_localProgress (WAVE_SPREAD rv) g delay = 1.
Proof.
  intros Hg. pose proof (WAVE_SPREAD_range rv) as [Hs0 Hs1].
  unfold spec_localProgress, clamp.
  assert (Hv : 1 <= (g - delay) / (1 - WAVE_SPREAD rv))
    by (apply Qle_shift_div_l; lra).
  unfold Math_max, Math_min.
  destruct (Qlt_le_dec (_ / _) 1); [exfalso; lra|].
  destruct (Qlt_le_dec 0 1); [reflexivity | exfalso; lra].
Qed.

Lemma localProgress_late_tile (rv : Revision) (g delay : Q) :
  g <= 1 -> WAVE_SPREAD rv < delay ->
  spec_localProgress (WAVE_SPREAD rv) g delay < 1.
Proof.
  intros Hg Hd. pose proof (WAVE_SPREAD_range rv) as [Hs0 Hs1].
  unfold spec_localProgress, clamp.
  assert (Hv : (g - delay) / (1 - WAVE_SPREAD rv) < 1)
    by (apply Qlt_shift_div_r; lra).
  unfold Math_max, Math_min.
  destruct (Qlt_le_dec (_ / _) 1); [|exfalso; lra].
  destruct (Qlt_le_dec 0 _); lra.
Qed.

(** What [drawTile] issues, read off the radius the tile has reached. *)
Lemma drawTile_cases (rv : Revision) (d : Direction) (g : Q) (hex : Hex.t) :
  let radius :=
    spec_radius (drawRadius rv) d
      (easing rv d (spec_localProgress (WAVE_SPREAD rv) g (Hex.delay hex))) in
  (minDrawSize rv <= radius
   /\ exists size,
       drawTile rv d g hex
       = [FillHexagon (Hex.x hex) (Hex.y hex) size darkColor]
       /\ size == radius)
  \/ (radius < minDrawSize rv /\ drawTile rv d g hex = []).
Proof.
  cbn zeta.
  set (radius := spec_radius _ _ _).
  destruct (Qlt_le_dec radius (minDrawSize rv)) as [Hsmall | Hbig];
    [right | left]; (split; [assumption|]); subst radius;
    destruct rv, d;
    cbn [drawTile minDrawSize drawRadius easing spec_radius
         spec_easedProgress WAVE_SPREAD] in *;
    unfold Sweep.drawTile, Radial.drawTile, Sweep.hexProgress,
      Radial.hexProgress, Sweep.easeOutQuart, spec_localProgress, clamp,
      quarticEaseOut, Sweep.HEX_DRAW_SIZE, Radial.HEX_SIZE in *;
    match goal with
    | |- context [Math_max 0 (Math_min 1 ?v)] =>
        set (lp := Math_max 0 (Math_min 1 v)) in *
    end;
    try pose proof (easeInQuart_quartic lp) as He;
    match goal with
    | |- context [Qlt_le_dec ?a ?b] => destruct (Qlt_le_dec a b)
    end;
    try reflexivity; try (exfalso; lra);
    match goal with
    | |- context [Sweep.drawHexagon ?x ?y ?s ?f] =>
        destruct (drawHexagon_sweep_cases x y s f) as [[Hge ->] | [Hlt ->]]
    | |- context [Radial.drawHexagon ?x ?y ?s ?f] =>
        destruct (drawHexagon_radial_cases x y s f) as [[Hge ->] | [Hlt ->]]
    end;
    try reflexivity; try (exfalso; lra);
    eexists; (split; [reflexivity | try reflexivity; lra]).
Qed.

Lemma radius_range (rv : Revision) (d : Direction) (e : Q) :
  0 <= e -> e <= 1 ->
  0 <= spec_radius (drawRadius rv) d e /\ spec_radius (drawRadius rv) d e <= drawRadius rv.
Proof.
  intros H0 H1.
  destruct rv, d; cbn [spec_radius drawRadius];
    unfold Sweep.HEX_DRAW_SIZE, Radial.HEX_SIZE; split; lra.
Qed.

Lemma easing_ends (rv : Revision) (d : Direction) :
  easing rv d 0 == 0 /\ easing rv d 1 == 1.
Proof. destruct rv, d; split; vm_compute; reflexivity. Qed.

Lemma tile_draws_drawFrame (rv : Revision) (pf : Platform) (props : Props)
      (progress : Q) (hexes : list Hex.t) :
  tile_draws (drawFrame rv pf props progress hexes)
  = flat_map (drawTile rv (direction props) progress) hexes.
Proof.
  pose proof (tile_draws_flat_map rv (direction props) progress hexes) as H.
  destruct rv; cbn [drawFrame]; unfold Sweep.drawFrame, Radial.drawFrame;
    exact H.
Qed.

Lemma drawTile_bounded (rv : Revision) (d : Direction) (g : Q) (hex : Hex.t) :
  Forall (darkHexagonBetween (minDrawSize rv) (drawRadius rv))
         (drawTile rv d g hex)
  /\ (List.length (drawTile rv d g hex) <= 1)%nat.
Proof.
  pose proof (localProgress_range rv g (Hex.delay hex)) as [Hl0 Hl1].
  pose proof (easing_range rv d _ Hl0 Hl1) as [He0 He1].
  pose proof (radius_range rv d _ He0 He1) as [_ Hr1].
  destruct (drawTile_cases rv d g hex) as [[Hge (size & -> & Hsz)] | [_ ->]].
  - split; [|cbn; lia]. constructor; [|constructor].
    cbn [darkHexagonBetween]. split; lra.
  - split; [constructor | cbn; lia].
Qed.

(** X3: every frame of [animate] starts by clearing the canvas, and its tile
    draw calls are dark hexagons, at most one per tile, each with a size
    between the smallest drawn size (1 in [sweep], 0.5 in [radial]) and the
    draw radius (48, resp. 32), whatever the progress and the delays. *)
Theorem X3_frame_draws_bounded :
  forall (rv : Revision) (pf : Platform) (props : Props) (progress : Q)
         (hexes : list Hex.t),
    Forall (darkHexagonBetween (minDrawSize rv) (drawRadius rv))
           (tile_draws (drawFrame rv pf props progress hexes))
    /\ (List.length (tile_draws (drawFrame rv pf props progress hexes))
        <= List.length hexes)%nat
    /\ exists rest,
        drawFrame rv pf props progress hexes
        = ClearRect (innerWidth pf) (innerHeight pf) :: rest.
Proof.
  intros rv pf props progress hexes.
  rewrite tile_draws_drawFrame. split; [|split].
  - induction hexes as [|hex rest IH]; [constructor|].
    cbn [flat_map]. apply Forall_app. split; [|exact IH].
    apply drawTile_bounded.
  - induction hexes as [|hex rest IH]; [cbn; lia|].
    cbn [flat_map]. rewrite length_app. cbn [List.length].
    pose proof (drawTile_bounded rv (direction props) progress hex) as [_ H1].
    lia.
  - destruct rv; cbn [drawFrame]; unfold Sweep.drawFrame, Radial.drawFrame;
      eexists; reflexivity.
Qed.

(** X5: as long as the global progress has not passed a tile's delay the
    tile is in its start state: a reveal frame draws it at the full draw
    radius, a hide frame does not draw it.  With delays that are never
    negative this is the state of every tile on the first frame, whose
    progress is 0. *)
Theorem X5_tile_waits_for_its_delay :
  forall (rv : Revision) (progress : Q) (hex : Hex.t),
    progress <= Hex.delay hex ->
    drawTile rv hide progress hex = []
    /\ exists size,
        drawTile rv reveal progress hex
        = [FillHexagon (Hex.x hex) (Hex.y hex) size darkColor]
        /\ size == drawRadius rv.
Proof.
  intros rv progress hex Hwait.
  pose proof (localProgress_before_delay rv progress (Hex.delay hex) Hwait)
    as Hlp.
  split.
  - destruct (drawTile_cases rv hide progress hex)
      as [[Hge _] | [_ Hnil]]; [|exact Hnil].
    exfalso. cbn zeta in Hge. rewrite Hlp in Hge.
    destruct (easing_ends rv hide) as [He _].
    cbn [spec_radius] in Hge.
    destruct rv; cbn [drawRadius minDrawSize] in Hge;
      unfold Sweep.HEX_DRAW_SIZE, Radial.HEX_SIZE in Hge; lra.
  - destruct (drawTile_cases rv reveal progress hex)
      as [[_ (size & Heq & Hsz)] | [Hlt _]].
    + exists size. split; [exact Heq|].
      cbn zeta in Hsz. rewrite Hlp in Hsz.
      destruct (easing_ends rv reveal) as [He _].
      cbn [spec_radius] in Hsz. rewrite Hsz, He. ring.
    + exfalso. cbn zeta in Hlt. rewrite Hlp in Hlt.
      destruct (easing_ends rv reveal) as [He _].
      cbn [spec_radius] in Hlt.
      destruct rv; cbn [drawRadius minDrawSize] in Hlt;
        unfold Sweep.HEX_DRAW_SIZE, Radial.HEX_SIZE in Hlt; lra.
Qed.

(** X6: once the global progress is [1 - WAVE_SPREAD] or more past a tile's
    delay the tile is in its end state: a reveal frame no longer draws it, a
    hide frame draws it at the full draw radius. *)
Theorem X6_tile_done_after_its_span :
  forall (rv : Revision) (progress : Q) (hex : Hex.t),
    Hex.delay hex + (1 - WAVE_SPREAD rv) <= progress ->
    drawTile rv reveal progress hex = []
    /\ exists size,
        drawTile rv hide progress hex
        = [FillHexagon (Hex.x hex) (Hex.y hex) size darkColor]
        /\ size == drawRadius rv.
Proof.
  intros rv progress hex Hdone.
  pose proof (localProgress_after_span rv progress (Hex.delay hex) Hdone)
    as Hlp.
  split.
  - destruct (drawTile_cases rv reveal progress hex)
      as [[Hge _] | [_ Hnil]]; [|exact Hnil].
    exfalso. cbn zeta in Hge. rewrite Hlp in Hge.
    destruct (easing_ends rv reveal) as [_ He].
    cbn [spec_radius] in Hge.
    destruct rv; cbn [drawRadius minDrawSize] in Hge;
      unfold Sweep.HEX_DRAW_SIZE, Radial.HEX_SIZE in Hge; lra.
  - destruct (drawTile_cases rv hide progress hex)
      as [[_ (size & Heq & Hsz)] | [Hlt _]].
    + exists size. split; [exact Heq|].
      cbn zeta in Hsz. rewrite Hlp in Hsz.
      destruct (easing_ends rv hide) as [_ He].
      cbn [spec_radius] in Hsz. rewrite Hsz, He. ring.
    + exfalso. cbn zeta in Hlt. rewrite Hlp in Hlt.
      destruct (easing_ends rv hide) as [_ He].
      cbn [spec_radius] in Hlt.
      destruct rv; cbn [drawRadius minDrawSize] in Hlt;
        unfold Sweep.HEX_DRAW_SIZE, Radial.HEX_SIZE in Hlt; lra.
Qed.

(** X7: a tile whose delay exceeds [WAVE_SPREAD] never reaches the full draw
    radius in a hide run: on every frame, the last one (progress 1)
    included, it is drawn smaller than the draw radius or not at all. *)
Theorem X7_late_tile_never_covers :
  forall (rv : Revision) (progress : Q) (hex : Hex.t),
    progress <= 1 ->
    WAVE_SPREAD rv < Hex.delay hex ->
    Forall (fun op => drawnSize op < drawRadius rv)
           (drawTile rv hide progress hex).
Proof.
  intros rv progress hex Hp Hlate.
  pose proof (localProgress_range rv progress (Hex.delay hex)) as [Hl0 _].
  pose proof (localProgress_late_tile rv progress (Hex.delay hex) Hp Hlate)
    as Hl1.
  pose proof (easing_hide_below_1 rv _ Hl0 Hl1) as He.
  destruct (drawTile_cases rv hide progress hex)
    as [[_ (size & -> & Hsz)] | [_ ->]]; [|constructor].
  constructor; [|constructor]. cbn [drawnSize]. cbn zeta in Hsz.
  cbn [spec_radius] in Hsz. rewrite Hsz.
  destruct rv; cbn [drawRadius]; unfold Sweep.HEX_DRAW_SIZE, Radial.HEX_SIZE;
    lra.
Qed.

(** A tile of delay 0.2 on the first frame of the [sweep] revision. *)
Lemma X5_tile_on_first_frame :
  drawTile sweep hide 0 (Hex.mk 100 100 0.2) = []
  /\ exists size,
      drawTile sweep reveal 0 (Hex.mk 100 100 0.2)
      = [FillHexagon 100 100 size darkColor]
      /\ size == drawRadius sweep.
Proof.
  apply (X5_tile_waits_for_its_delay sweep 0 (Hex.mk 100 100 0.2)).
  cbn [Hex.delay]. lra.
Defined.

(** A tile of delay 0.2 on the last frame of the [sweep] revision. *)
Lemma X6_tile_on_last_frame :
  drawTile sweep reveal 1 (Hex.mk 100 100 0.2) = []
  /\ exists size,
      drawTile sweep hide 1 (Hex.mk 100 100 0.2)
      = [FillHexagon 100 100 size darkColor]
      /\ size == drawRadius sweep.
Proof.
  apply (X6_tile_done_after_its_span sweep 1 (Hex.mk 100 100 0.2)).
  cbn [Hex.delay WAVE_SPREAD]. unfold Sweep.WAVE_SPREAD. lra.
Defined.

(** A tile of delay 0.58, as the [sweep] revision assigns beyond the right
    edge, on the last frame of a hide run. *)
Lemma X7_late_tile_on_last_frame :
  Forall (fun op => drawnSize op < drawRadius sweep)
         (drawTile sweep hide 1 (Hex.mk 646.4 (-160) 0.58)).
Proof.
  apply (X7_late_tile_never_covers sweep 1 (Hex.mk 646.4 (-160) 0.58));
    cbn [Hex.delay WAVE_SPREAD]; unfold Sweep.WAVE_SPREAD; lra.
Defined.

(** ** Progress and the life of a run *)

Lemma Qdiv_le_compat (x y d : Q) : 0 < d -> x <= y -> x / d <= y / d.
Proof.
  intros Hd Hxy. unfold Qdiv. apply Qmult_le_compat_r; [exact Hxy|].
  apply Qinv_le_0_compat. lra.
Qed.

Lemma Math_min_mono (c x y : Q) : x <= y -> Math_min c x <= Math_min c y.
Proof.
  intros Hxy. unfold Math_min.
  destruct (Qlt_le_dec x c); destruct (Qlt_le_dec y c); lra.
Qed.

Lemma progressAt_le_1 (rv : Revision) (start t : Q) : progressAt rv start t <= 1.
Proof.
  unfold progressAt, Math_min. destruct (Qlt_le_dec _ 1); lra.
Qed.

Lemma progressAt_mono (rv : Revision) (start t1 t2 : Q) :
  t1 <= t2 -> progressAt rv start t1 <= progressAt rv start t2.
Proof.
  intros Ht. unfold progressAt. apply Math_min_mono.
  apply Qdiv_le_compat; [apply DURATION_pos | lra].
Qed.

Lemma progressAt_full (rv : Revision) (start t : Q) :
  progressAt rv start t == 1 <-> DURATION rv <= t - start.
Proof.
  split.
  - intros H1. unfold progressAt, Math_min in H1.
    pose proof (DURATION_pos rv) as Hd.
    destruct (Qlt_le_dec ((t - start) / DURATION rv) 1) as [Hlt | Hge];
      [exfalso; lra|].
    assert (Hm : (t - start) / DURATION rv * DURATION rv == t - start)
      by (field; lra).
    assert (Hc : 1 * DURATION rv <= (t - start) / DURATION rv * DURATION rv)
      by (apply Qmult_le_compat_r; lra).
    lra.
  - apply progress_at_end.
Qed.

Lemma progressAt_below (rv : Revision) (start t : Q) :
  Qle_bool (DURATION rv) (t - start) = false -> progressAt rv start t < 1.
Proof.
  intros Hb.
  pose proof (progressAt_le_1 rv start t) as Hle.
  destruct (Qlt_le_dec (progressAt rv start t) 1) as [Hlt | Hge];
    [exact Hlt|].
  exfalso. assert (H1 : progressAt rv start t == 1) by lra.
  apply progressAt_full in H1. apply Qle_bool_iff in H1. congruence.
Qed.

Section Life.
Context {M : JSMath}.
Variable rv : Revision.
Variable pf : Platform.
Variable props : Props.

Lemma frames_after_end (ticks : list Q) :
  forall refs s more,
    startTime refs = Some s ->
    existsb (fun timestamp => Qle_bool (DURATION rv) (timestamp - s)) ticks
    = true ->
    frames rv pf props refs (Some RequestAnimationFrame) (ticks ++ more)
    = frames rv pf props refs (Some RequestAnimationFrame) ticks.
Proof.
  induction ticks as [|timestamp rest IH]; intros refs s more Hs Hex;
    [discriminate|].
  cbn [app frames]. unfold animate. rewrite Hs.
  fold (progressAt rv s timestamp).
  cbn [existsb] in Hex.
  destruct (Qlt_le_dec (progressAt rv s timestamp) 1) as [Hlt | Hge].
  - destruct (Qle_bool (DURATION rv) (timestamp - s)) eqn:Hreach.
    + exfalso. apply Qle_bool_iff in Hreach.
      apply progressAt_full in Hreach. lra.
    + cbn [orb] in Hex. f_equal. apply (IH _ s); [reflexivity | exact Hex].
  - now rewrite !frames_none.
Qed.

Lemma frames_after_end_from_start (ticks more : list Q) (refs : Refs) :
  startTime refs = None ->
  drivenToEnd rv ticks = true ->
  frames rv pf props refs (Some RequestAnimationFrame) (ticks ++ more)
  = frames rv pf props refs (Some RequestAnimationFrame) ticks.
Proof.
  intros Hs Hend. destruct ticks as [|first rest]; [discriminate|].
  cbn [drivenToEnd] in Hend. cbn [app frames]. unfold animate. rewrite Hs.
  fold (progressAt rv first first).
  pose proof (progress_at_start rv first) as H0.
  fold (progressAt rv first first) in H0.
  destruct (Qlt_le_dec (progressAt rv first first) 1) as [Hlt | Hge];
    [|exfalso; lra].
  f_equal. apply (frames_after_end rest _ first); [reflexivity | exact Hend].
Qed.

Lemma frames_not_pending (refs : Refs) (cb : TimeoutCallback) (ms : Q)
      (ticks : list Q) :
  frames rv pf props refs (Some (SetTimeout cb ms)) ticks = [].
Proof. destruct ticks; reflexivity. Qed.

Lemma run_after_end (refs : Refs) (ticks more : list Q) :
  drivenToEnd rv ticks = true ->
  run rv pf props refs (ticks ++ more) = run rv pf props refs ticks.
Proof.
  intros Hend. unfold run, effectBody.
  destruct (isActive props); cbn [negb];
    [|cbn; now rewrite !frames_none].
  destruct (canvasRef pf); cbn [negb]; [|cbn; now rewrite !frames_none].
  destruct (getContext2d pf); cbn [negb]; [|cbn; now rewrite !frames_none].
  destruct (prefersReducedMotion pf);
    [cbn; now rewrite !frames_none|].
  cbn [scheduled refs_after initial_ops]. f_equal.
  pose proof (frames_after_end_from_start ticks more
                {| hexesRef := buildHexes rv pf props; partialFired := false;
                   startTime := None |} eq_refl Hend) as Hfr.
  destruct rv; cbn [fireTimeout]; [f_equal|]; exact Hfr.
Qed.

(** While no frame has reached [DURATION], no frame ends the run. *)
Lemma frames_no_complete_before_end (ticks : list Q) :
  forall refs s,
    startTime refs = Some s ->
    existsb (fun timestamp => Qle_bool (DURATION rv) (timestamp - s)) ticks
    = false ->
    ~ In Complete
         (events_of (frames rv pf props refs (Some RequestAnimationFrame) ticks)).
Proof.
  induction ticks as [|timestamp rest IH]; intros refs s Hs Hex Hin;
    [contradiction|].
  cbn [existsb] in Hex. apply orb_false_iff in Hex. destruct Hex as [Ht Hex].
  cbn [frames] in Hin. unfold animate in Hin. rewrite Hs in Hin.
  fold (progressAt rv s timestamp) in Hin.
  pose proof (progressAt_below rv s timestamp Ht) as Hlt.
  destruct (Qlt_le_dec (progressAt rv s timestamp) 1) as [_ | Hge];
    [|exfalso; lra].
  rewrite events_of_cons in Hin. cbn [events] in Hin.
  apply in_app_or in Hin. destruct Hin as [Hin | Hin].
  - destruct (_ && _ && _) in Hin; [|contradiction].
    unfold call in Hin. destruct (onPartialReveal props); cbn in Hin;
      [destruct Hin as [Hin | []]; discriminate | contradiction].
  - revert Hin. apply (IH _ s); [reflexivity | exact Hex].
Qed.

Lemma frames_no_partial_before_mark (ticks : list Q) :
  forall refs s,
    startTime refs = Some s ->
    existsb (fun timestamp =>
               Qle_bool (partialRevealAt rv) (progressAt rv s timestamp)) ticks
    = false ->
    ~ In PartialReveal
         (events_of (frames rv pf props refs (Some RequestAnimationFrame) ticks)).
Proof.
  induction ticks as [|timestamp rest IH]; intros refs s Hs Hex Hin;
    [contradiction|].
  cbn [existsb] in Hex. apply orb_false_iff in Hex. destruct Hex as [Ht Hex].
  cbn [frames] in Hin. unfold animate in Hin. rewrite Hs in Hin.
  fold (progressAt rv s timestamp) in Hin.
  pose proof (partialRevealAt_range rv) as [Hthr0 Hthr1].
  assert (Hbelow : progressAt rv s timestamp < partialRevealAt rv).
  { destruct (Qlt_le_dec (progressAt rv s timestamp) (partialRevealAt rv))
      as [Hlt | Hge]; [exact Hlt|].
    apply Qle_bool_iff in Hge. congruence. }
  destruct (Qlt_le_dec (progressAt rv s timestamp) 1) as [_ | Hge];
    [|exfalso; lra].
  destruct (Qlt_le_dec (progressAt rv s timestamp) (partialRevealAt rv))
    as [_ | Hge]; [|exfalso; lra].
  rewrite events_of_cons in Hin. cbn [events] in Hin.
  rewrite andb_false_r in Hin. cbn [andb app] in Hin.
  revert Hin. apply (IH _ s); [reflexivity | exact Hex].
Qed.

Lemma frames_partial_at_mark (ticks : list Q) :
  forall refs s,
    startTime refs = Some s ->
    partialFired refs = false ->
    onPartialReveal props = true ->
    direction props = reveal ->
    existsb (fun timestamp =>
               Qle_bool (partialRevealAt rv) (progressAt rv s timestamp)) ticks
    = true ->
    In PartialReveal
       (events_of (frames rv pf props refs (Some RequestAnimationFrame) ticks)).
Proof.
  induction ticks as [|timestamp rest IH]; intros refs s Hs Hf Hp Hd Hex;
    [discriminate|].
  cbn [existsb] in Hex.
  cbn [frames]. unfold animate. rewrite Hs, Hf, Hp, Hd.
  fold (progressAt rv s timestamp).
  pose proof (partialRevealAt_range rv) as [Hthr0 Hthr1].
  destruct (Qlt_le_dec (progressAt rv s timestamp) (partialRevealAt rv))
    as [Hlt | Hge].
  - assert (Ht : Qle_bool (partialRevealAt rv) (progressAt rv s timestamp)
                 = false).
    { destruct (Qle_bool _ _) eqn:Hb; [|reflexivity].
      apply Qle_bool_iff in Hb. exfalso. lra. }
    rewrite Ht in Hex. cbn [orb] in Hex.
    destruct (Qlt_le_dec (progressAt rv s timestamp) 1) as [_ | Hge];
      [|exfalso; lra].
    rewrite events_of_cons. apply in_or_app. right.
    apply (IH _ s); try reflexivity; assumption.
  - cbn [negb andb is_reveal call].
    destruct (Qlt_le_dec (progressAt rv s timestamp) 1);
      rewrite events_of_cons; apply in_or_app; left; cbn; auto.
Qed.

End Life.

Lemma In_partialCall (props : Props) (e : Event) :
  In e (partialCall props) ->
  e = PartialReveal /\ onPartialReveal props = true /\ direction props = reveal.
Proof.
  unfold partialCall, call.
  destruct (onPartialReveal props); destruct (direction props);
    cbn; intros Hin; try contradiction.
  destruct Hin as [<- | []]. auto.
Qed.

Lemma In_completeCall (props : Props) (e : Event) :
  In e (completeCall props) -> e = Complete /\ onComplete props = true.
Proof.
  unfold completeCall, call. destruct (onComplete props); cbn; intros Hin;
    [|contradiction].
  destruct Hin as [<- | []]. auto.
Qed.

(** X4: the global progress that [animate] draws a frame with
    ([Math.min(1, (timestamp - start) / DURATION)]) never decreases as the
    timestamp grows, never exceeds 1, is 0 on the frame that sets the start
    time, and equals 1 exactly from [DURATION] after the start on. *)
Theorem X4_progress_monotone_capped :
  forall (rv : Revision) (start t1 t2 : Q),
    t1 <= t2 ->
    progressAt rv start t1 <= progressAt rv start t2
    /\ progressAt rv start t2 <= 1
    /\ progressAt rv start start == 0
    /\ (progressAt rv start t2 == 1 <-> DURATION rv <= t2 - start)
    /\ (forall pf props refs,
           startTime refs = Some start ->
           ops (snd (fst (animate rv pf props refs t2)))
           = drawFrame rv pf props (progressAt rv start t2) (hexesRef refs)).
Proof.
  intros rv start t1 t2 Ht.
  split; [now apply progressAt_mono|].
  split; [apply progressAt_le_1|].
  split; [apply progress_at_start|].
  split; [apply progressAt_full|].
  intros pf props refs Hs. unfold animate. rewrite Hs.
  fold (progressAt rv start t2).
  destruct (Qlt_le_dec (progressAt rv start t2) 1); reflexivity.
Qed.

(** Two frames of a [sweep] run started at 100 ms. *)
Lemma X4_progress_halfway :
  progressAt sweep 100 400 <= progressAt sweep 100 575.
Proof.
  apply (X4_progress_monotone_capped sweep 100 400 575). lra.
Defined.

(** X8: once a frame has come [DURATION] or more after the first one, the
    run is over: no further frame is requested, so timestamps the clock
    would deliver afterwards change nothing, neither the canvas operations
    nor the handlers invoked. *)
Theorem X8_frames_after_completion_ignored :
  forall (M : JSMath) (rv : Revision) (pf : Platform) (props : Props)
         (refs : Refs) (ticks more : list Q),
    drivenToEnd rv ticks = true ->
    run rv pf props refs (ticks ++ more) = run rv pf props refs ticks.
Proof.
  intros M rv pf props refs ticks more Hend. now apply run_after_end.
Qed.

(** A frame offered at 1000 ms, after the run on the example phone screen
    has ended at 950 ms. *)
Lemma X8_late_frame_on_phone :
  @run exampleMath sweep phone enteringProps noRefs ([0; 475; 950] ++ [1000])
  = @run exampleMath sweep phone enteringProps noRefs [0; 475; 950].
Proof.
  apply (X8_frames_after_completion_ignored
           exampleMath sweep phone enteringProps noRefs [0; 475; 950] [1000]).
  reflexivity.
Defined.

(** X9: in an animated run (drawing surface there, no reduced motion)
    [onComplete] is invoked if and only if a handler is supplied and the
    clock delivers a frame [DURATION] or more after the first one; it is
    never invoked early. *)
Theorem X9_complete_iff_driven_to_end :
  forall (M : JSMath) (rv : Revision) (pf : Platform) (props : Props)
         (refs : Refs) (ticks : list Q),
    surfaceReady pf props = true ->
    prefersReducedMotion pf = false ->
    (In Complete (events_of (run rv pf props refs ticks))
     <-> onComplete props = true /\ drivenToEnd rv ticks = true).
Proof.
  intros M rv pf props refs ticks Hready Hm. split.
  - intros Hin. split.
    + pose proof (run_events_shape rv pf props refs ticks) as Hs.
      cbn zeta in Hs.
      destruct Hs as [Hs | [Hs | [Hs | Hs]]]; rewrite Hs in Hin.
      * contradiction.
      * apply in_app_or in Hin. destruct Hin as [Hin | Hin].
        -- unfold call in Hin. destruct (onPartialReveal props); cbn in Hin;
             [destruct Hin as [Hin | []]; discriminate | contradiction].
        -- now apply In_completeCall in Hin.
      * apply In_partialCall in Hin. destruct Hin as [Hin _]. discriminate.
      * apply in_app_or in Hin. destruct Hin as [Hin | Hin].
        -- apply In_partialCall in Hin. destruct Hin as [Hin _]. discriminate.
        -- now apply In_completeCall in Hin.
    + destruct (drivenToEnd rv ticks) eqn:Hend; [reflexivity|]. exfalso.
      rewrite (run_animated_events rv pf props refs ticks Hready Hm) in Hin.
      destruct ticks as [|first rest]; [contradiction|].
      rewrite frames_first in Hin by reflexivity.
      revert Hin.
      apply (frames_no_complete_before_end rv pf props rest _ first);
        [reflexivity | exact Hend].
  - intros [Hc Hend].
    rewrite (run_animated_complete rv pf props refs ticks Hready Hm Hend).
    apply in_or_app. right. unfold completeCall. rewrite Hc. now left.
Qed.

(** The Entering run on the example phone screen with frames up to 950 ms. *)
Lemma X9_complete_on_phone :
  In Complete
     (events_of (@run exampleMath sweep phone enteringProps noRefs [0; 475; 950]))
  <-> onComplete enteringProps = true /\ drivenToEnd sweep [0; 475; 950] = true.
Proof.
  apply (X9_complete_iff_driven_to_end
           exampleMath sweep phone enteringProps noRefs [0; 475; 950]);
    reflexivity.
Defined.

(** X10: in an animated run [onPartialReveal] is invoked if and only if a
    handler is supplied, the direction is reveal and the clock delivers a
    frame whose progress is at least the partial-reveal mark (0.45 in
    [sweep], 0.55 in [radial]). *)
Theorem X10_partial_iff_mark_reached :
  forall (M : JSMath) (rv : Revision) (pf : Platform) (props : Props)
         (refs : Refs) (ticks : list Q),
    surfaceReady pf props = true ->
    prefersReducedMotion pf = false ->
    (In PartialReveal (events_of (run rv pf props refs ticks))
     <-> onPartialReveal props = true /\ direction props = reveal
         /\ drivenToPartial rv ticks = true).
Proof.
  intros M rv pf props refs ticks Hready Hm.
  rewrite (run_animated_events rv pf props refs ticks Hready Hm). split.
  - intros Hin.
    assert (Hsup : onPartialReveal props = true /\ direction props = reveal).
    { match type of Hin with
      | context [frames rv pf props ?r ?p ticks] =>
          pose proof (frames_events_shape rv pf props ticks r p) as Hs
      end.
      cbn zeta in Hs. cbn [partialFired] in Hs.
      destruct Hs as [Hs | [Hs | Hs]]; rewrite Hs in Hin.
      - contradiction.
      - now apply In_partialCall in Hin.
      - apply in_app_or in Hin. destruct Hin as [Hin | Hin].
        + now apply In_partialCall in Hin.
        + apply In_completeCall in Hin. destruct Hin as [Hin _].
          discriminate. }
    destruct Hsup as [Hp Hd]. split; [exact Hp|]. split; [exact Hd|].
    destruct (drivenToPartial rv ticks) eqn:Hmark; [reflexivity|]. exfalso.
    destruct ticks as [|first rest]; [contradiction|].
    rewrite frames_first in Hin by reflexivity.
    revert Hin.
    apply (frames_no_partial_before_mark rv pf props rest _ first);
      [reflexivity | exact Hmark].
  - intros (Hp & Hd & Hmark).
    destruct ticks as [|first rest]; [discriminate|].
    rewrite frames_first by reflexivity.
    apply (frames_partial_at_mark rv pf props rest _ first);
      try reflexivity; assumption.
Qed.

(** The Entering run on the example phone screen cut short after the frame
    at 475 ms, half way through. *)
Lemma X10_partial_on_phone :
  In PartialReveal
     (events_of (@run exampleMath sweep phone enteringProps noRefs [0; 475]))
  <-> onPartialReveal enteringProps = true /\ direction enteringProps = reveal
      /\ drivenToPartial sweep [0; 475] = true.
Proof.
  apply (X10_partial_iff_mark_reached
           exampleMath sweep phone enteringProps noRefs [0; 475]);
    reflexivity.
Defined.

(** ** The layout of the grid *)

Lemma In_upto (n z : Z) : In z (upto n) <-> (0 <= z < n)%Z.
Proof.
  unfold upto. rewrite in_map_iff. split.
  - intros (k & <- & Hk). apply in_seq in Hk. lia.
  - intros Hz. exists (Z.to_nat z). split; [lia|]. apply in_seq. lia.
Qed.

Lemma generateHexGrid_tileAt {M : JSMath} (rv : Revision) (width height : Q) :
  generateHexGrid rv width height
  = flat_map (fun row => map (tileAt rv row) (upto (cols rv width)))
             (upto (rows rv height)).
Proof. destruct rv; reflexivity. Qed.

Lemma generateHexGrid_In {M : JSMath} (rv : Revision) (width height : Q)
      (hex : Hex.t) :
  In hex (generateHexGrid rv width height)
  <-> exists row col,
        (0 <= row < rows rv height)%Z /\ (0 <= col < cols rv width)%Z
        /\ hex = tileAt rv row col.
Proof.
  rewrite generateHexGrid_tileAt, in_flat_map. split.
  - intros (row & Hrow & Hin). apply in_map_iff in Hin.
    destruct Hin as (col & <- & Hcol).
    exists row, col. rewrite <- !In_upto. auto.
  - intros (row & col & Hrow & Hcol & ->).
    exists row. rewrite In_upto. split; [exact Hrow|].
    apply in_map. now apply In_upto.
Qed.

Lemma horizDist_pos (rv : Revision) : 0 < horizDist rv.
Proof. destruct rv; reflexivity. Qed.

Lemma vertDist_pos {M : JSMath} (rv : Revision) :
  1.7 <= Math_sqrt 3 -> 55 <= vertDist rv.
Proof.
  intros H3. destruct rv; cbn [vertDist];
    unfold Sweep.vertDist, Radial.vertDist, Sweep.HEX_SIZE, Radial.HEX_SIZE;
    lra.
Qed.

(** The last index of a loop over [ceil(extent / pitch) + pad] steps lies
    [pad - 1] pitches beyond the extent. *)
Lemma span_reaches (extent pitch : Q) (pad : Z) :
  0 < pitch ->
  extent + inject_Z (pad - 1) * pitch
  <= inject_Z (Math_ceil (extent / pitch) + pad - 1) * pitch.
Proof.
  intros Hp.
  replace (Math_ceil (extent / pitch) + pad - 1)%Z
    with (Math_ceil (extent / pitch) + (pad - 1))%Z by lia.
  rewrite inject_Z_plus.
  pose proof (Qle_ceiling (extent / pitch)) as Hc. fold (Math_ceil (extent / pitch)) in Hc.
  assert (Hm : extent / pitch * pitch <= inject_Z (Math_ceil (extent / pitch)) * pitch)
    by (apply Qmult_le_compat_r; lra).
  assert (He : extent / pitch * pitch == extent) by (field; lra).
  lra.
Qed.

Lemma tileAt_coords {M : JSMath} (rv : Revision) (row col : Z) :
  Hex.x (tileAt rv row col) == - overscan rv + inject_Z col * horizDist rv
  /\ (- overscan rv + inject_Z row * vertDist rv <= Hex.y (tileAt rv row col)
      \/ vertDist rv < 0)
  /\ ((col mod 2 =? 1)%Z = false ->
      Hex.y (tileAt rv row col) == - overscan rv + inject_Z row * vertDist rv)
  /\ Hex.delay (tileAt rv row col) = 0.
Proof.
  destruct rv; cbn [tileAt Hex.x Hex.y Hex.delay overscan horizDist vertDist];
    (split; [ring|]); (split; [|split; [intros ->; ring | reflexivity]]);
    destruct (_ =? _)%Z;
    match goal with
    | |- context [?v / 2] =>
        destruct (Qlt_le_dec v 0) as [Hneg | Hpos];
        [right; exact Hneg | left; rewrite (Qdiv_2 v); lra]
    | _ => left; lra
    end.
Qed.

Lemma cols_positive (rv : Revision) (width : Q) :
  0 <= width -> (0 < cols rv width)%Z.
Proof.
  intros Hw.
  assert (Hc : (0 <= Math_ceil (width / horizDist rv))%Z).
  { apply Math_ceil_nonneg. apply Qle_shift_div_l; [apply horizDist_pos | lra]. }
  destruct rv; cbn [cols horizDist] in *; unfold Sweep.cols, Radial.cols; lia.
Qed.

Lemma rows_positive {M : JSMath} (rv : Revision) (height : Q) :
  1.7 <= Math_sqrt 3 -> 0 <= height -> (0 < rows rv height)%Z.
Proof.
  intros H3 Hh. pose proof (vertDist_pos rv H3) as Hv.
  assert (Hc : (0 <= Math_ceil (height / vertDist rv))%Z).
  { apply Math_ceil_nonneg. apply Qle_shift_div_l; lra. }
  destruct rv; cbn [rows vertDist] in *; unfold Sweep.rows, Radial.rows; lia.
Qed.

(** X11: for a viewport of width and height 0 or more, the grid starts one
    overscan margin (4 tile radii in [sweep], 2 in [radial]) before the left
    and top edges, no tile lies before that, and its last tile lies at
    least one margin beyond the right and bottom edges; every generated
    tile has delay 0.  (The host's square root of 3 is taken to be at least
    1.7.) *)
Theorem X11_grid_overscans_viewport :
  forall (M : JSMath) (rv : Revision) (width height : Q),
    1.7 <= Math_sqrt 3 -> 0 <= width -> 0 <= height ->
    (exists first last,
        In first (generateHexGrid rv width height)
        /\ In last (generateHexGrid rv width height)
        /\ Hex.x first == - overscan rv /\ Hex.y first == - overscan rv
        /\ width + overscan rv <= Hex.x last
        /\ height + overscan rv <= Hex.y last)
    /\ Forall (fun hex => - overscan rv <= Hex.x hex
                          /\ - overscan rv <= Hex.y hex
                          /\ Hex.delay hex = 0)
              (generateHexGrid rv width height).
Proof.
  intros M rv width height H3 Hw Hh.
  pose proof (vertDist_pos rv H3) as Hv.
  pose proof (horizDist_pos rv) as Hhd.
  pose proof (cols_positive rv width Hw) as Hcols.
  pose proof (rows_positive rv height H3 Hh) as Hrows.
  split.
  - exists (tileAt rv 0 0), (tileAt rv (rows rv height - 1) (cols rv width - 1)).
    split; [apply generateHexGrid_In; exists 0%Z, 0%Z; repeat split; lia|].
    split; [apply generateHexGrid_In; eexists; eexists; repeat split;
            try reflexivity; lia|].
    destruct (tileAt_coords rv 0 0) as (Hx0 & _ & Hy0 & _).
    specialize (Hy0 eq_refl).
    destruct (tileAt_coords rv (rows rv height - 1) (cols rv width - 1))
      as (Hx1 & Hy1 & _ & _).
    destruct Hy1 as [Hy1 | Hneg]; [|exfalso; lra].
    split; [rewrite Hx0; change (inject_Z 0) with 0; ring|].
    split; [rewrite Hy0; change (inject_Z 0) with 0; ring|].
    split.
    + rewrite Hx1.
      assert (Hspan : exists pad : Z,
                 cols rv width = (Math_ceil (width / horizDist rv) + pad)%Z
                 /\ 2 * overscan rv <= inject_Z (pad - 1) * horizDist rv).
      { destruct rv; [exists 8%Z | exists 4%Z]; split; try reflexivity;
          vm_compute; discriminate. }
      destruct Hspan as (pad & Hc & Hpad). rewrite Hc.
      pose proof (span_reaches width (horizDist rv) pad Hhd) as Hs.
      lra.
    + assert (Hspan : exists pad : Z,
                 rows rv height = (Math_ceil (height / vertDist rv) + pad)%Z
                 /\ 2 * overscan rv <= inject_Z (pad - 1) * 55).
      { destruct rv; [exists 8%Z | exists 4%Z]; split; try reflexivity;
          vm_compute; discriminate. }
      destruct Hspan as (pad & Hr & Hpad). rewrite Hr in Hy1.
      assert (Hv0 : 0 < vertDist rv) by lra.
      pose proof (span_reaches height (vertDist rv) pad Hv0) as Hs.
      assert (Hpad0 : 0 <= inject_Z (pad - 1)).
      { destruct (Qlt_le_dec (inject_Z (pad - 1)) 0) as [Hn | Hp];
          [|exact Hp].
        exfalso. assert (0 <= overscan rv) by (destruct rv; vm_compute; discriminate).
        lra. }
      assert (Hmono : inject_Z (pad - 1) * 55
                      <= inject_Z (pad - 1) * vertDist rv)
        by (rewrite !(Qmult_comm (inject_Z (pad - 1)));
            apply Qmult_le_compat_r; lra).
      rewrite Hr. lra.
  - apply Forall_forall. intros hex Hin.
    apply generateHexGrid_In in Hin.
    destruct Hin as (row & col & Hrow & Hcol & ->).
    destruct (tileAt_coords rv row col) as (Hx & Hy & _ & Hd).
    destruct Hy as [Hy | Hneg]; [|exfalso; lra].
    assert (Hc0 : 0 <= inject_Z col)
      by (change 0 with (inject_Z 0); rewrite <- Zle_Qle; lia).
    assert (Hr0 : 0 <= inject_Z row)
      by (change 0 with (inject_Z 0); rewrite <- Zle_Qle; lia).
    assert (0 <= inject_Z col * horizDist rv)
      by (apply Qmult_le_0_compat; lra).
    assert (0 <= inject_Z row * vertDist rv)
      by (apply Qmult_le_0_compat; lra).
    repeat split; try assumption; lra.
Qed.

Lemma nth_error_seq_lt (len : nat) :
  forall start k, (k < len)%nat -> nth_error (seq start len) k = Some (start + k)%nat.
Proof.
  induction len as [|len IH]; intros start k Hk; [lia|].
  destruct k as [|k]; cbn [seq nth_error].
  - now rewrite Nat.add_0_r.
  - rewrite IH by lia. f_equal. lia.
Qed.

Lemma nth_error_upto (n z : Z) :
  (0 <= z < n)%Z -> nth_error (upto n) (Z.to_nat z) = Some z.
Proof.
  intros Hz. unfold upto. rewrite nth_error_map.
  rewrite nth_error_seq_lt by lia. cbn [option_map Nat.add]. f_equal. lia.
Qed.

Lemma nth_error_flat_map_rows {A B : Type} (f : A -> list B) (n : nat) :
  (forall a, List.length (f a) = n) ->
  forall xs i j a,
    nth_error xs i = Some a -> (j < n)%nat ->
    nth_error (flat_map f xs) (i * n + j) = nth_error (f a) j.
Proof.
  intros Hf xs. induction xs as [|b rest IH]; intros i j a Hi Hj.
  - destruct i; discriminate.
  - destruct i as [|i]; cbn [nth_error] in Hi; cbn [flat_map].
    + injection Hi as ->. cbn [Nat.mul Nat.add].
      apply nth_error_app1. now rewrite Hf.
    + rewrite nth_error_app2 by (rewrite Hf; lia).
      rewrite Hf. replace (S i * n + j - n)%nat with (i * n + j)%nat by lia.
      now apply IH.
Qed.

(** X14: the tile set is laid out row by row: the tile pushed for [row] and
    [col] sits at index [row * cols + col], and assigning the delays keeps
    it there with the same centre, so that this index is also the number of
    the jitter draw it receives. *)
Theorem X14_grid_is_row_major :
  forall (M : JSMath) (rv : Revision) (pf : Platform) (props : Props)
         (row col : Z),
    (0 <= row < rows rv (innerHeight pf))%Z ->
    (0 <= col < cols rv (innerWidth pf))%Z ->
    let index := Z.to_nat (row * cols rv (innerWidth pf) + col) in
    nth_error (generateHexGrid rv (innerWidth pf) (innerHeight pf)) index
    = Some (tileAt rv row col)
    /\ exists hex,
        nth_error (buildHexes rv pf props) index = Some hex
        /\ Hex.x hex = Hex.x (tileAt rv row col)
        /\ Hex.y hex = Hex.y (tileAt rv row col).
Proof.
  intros M rv pf props row col Hrow Hcol index. subst index.
  set (width := innerWidth pf) in *. set (height := innerHeight pf) in *.
  assert (Hgrid : nth_error (generateHexGrid rv width height)
                            (Z.to_nat (row * cols rv width + col))
                  = Some (tileAt rv row col)).
  { rewrite generateHexGrid_tileAt.
    replace (Z.to_nat (row * cols rv width + col))
      with (Z.to_nat row * Z.to_nat (cols rv width) + Z.to_nat col)%nat
      by (rewrite Z2Nat.inj_add, Z2Nat.inj_mul;
          try reflexivity; try lia; apply Z.mul_nonneg_nonneg; lia).
    assert (Hlt : (Z.to_nat col < Z.to_nat (cols rv width))%nat) by lia.
    rewrite (nth_error_flat_map_rows
               (fun r => map (tileAt rv r) (upto (cols rv width)))
               (Z.to_nat (cols rv width))
               ltac:(intros; cbv beta; now rewrite length_map, upto_length)
               _ (Z.to_nat row) (Z.to_nat col) row
               (nth_error_upto _ _ Hrow) Hlt).
    rewrite nth_error_map, (nth_error_upto _ _ Hcol). reflexivity. }
  split; [exact Hgrid|].
  destruct rv; cbn [buildHexes]; fold width; fold height;
    unfold Sweep.calculateDelays, Radial.calculateDelays;
    rewrite mapi_from_nth_error;
    cbn [generateHexGrid] in Hgrid; rewrite Hgrid; cbn [option_map];
    eexists; (split; [reflexivity | split; reflexivity]).
Qed.

Lemma mapi_from_map {A B C : Type} (f : nat -> A -> B) (g : B -> C)
      (h : A -> C) (xs : list A) :
  (forall i a, g (f i a) = h a) ->
  forall i, map g (mapi_from f i xs) = map h xs.
Proof.
  intros Hg. induction xs as [|a rest IH]; intros i; [reflexivity|].
  cbn [mapi_from map]. now rewrite Hg, IH.
Qed.

Lemma mapi_from_length {A B : Type} (f : nat -> A -> B) (xs : list A) :
  forall i, List.length (mapi_from f i xs) = List.length xs.
Proof.
  induction xs as [|a rest IH]; intros i; [reflexivity|].
  cbn [mapi_from List.length]. now rewrite IH.
Qed.

(** X12: [calculateDelays] rewrites delays only: in both revisions the
    tiles keep their order and their centres, and the tile set of a run has
    [rows] x [cols] tiles whatever the wave direction or origin. *)
Theorem X12_delays_keep_positions :
  forall M : JSMath,
    (forall hexes width dir,
        map Hex.x (Sweep.calculateDelays hexes width dir) = map Hex.x hexes
        /\ map Hex.y (Sweep.calculateDelays hexes width dir) = map Hex.y hexes)
    /\ (forall hexes width height originX originY,
           map Hex.x (Radial.calculateDelays hexes width height originX originY)
           = map Hex.x hexes
           /\ map Hex.y (Radial.calculateDelays hexes width height originX originY)
              = map Hex.y hexes)
    /\ (forall rv pf props,
           List.length (buildHexes rv pf props)
           = (Z.to_nat (rows rv (innerHeight pf))
              * Z.to_nat (cols rv (innerWidth pf)))%nat).
Proof.
  intros M. split; [|split].
  - intros hexes width dir. unfold Sweep.calculateDelays.
    split; apply mapi_from_map; reflexivity.
  - intros hexes width height originX originY. unfold Radial.calculateDelays.
    split; apply mapi_from_map; reflexivity.
  - intros rv pf props.
    rewrite <- (generateHexGrid_length rv (innerWidth pf) (innerHeight pf)).
    destruct rv; cbn [buildHexes generateHexGrid];
      unfold Sweep.calculateDelays, Radial.calculateDelays;
      apply mapi_from_length.
Qed.

Lemma Math_max_mono (c x y : Q) : x <= y -> Math_max c x <= Math_max c y.
Proof.
  intros Hxy. unfold Math_max.
  destruct (Qlt_le_dec c x); destruct (Qlt_le_dec c y); lra.
Qed.

(** X13: the horizontal wave of the [sweep] revision is ordered by x: for
    a viewport wider than -320, of two tiles on the same height and with the
    same jitter draw, the one further left never starts later on a
    left-to-right (reveal) wave and never starts earlier on a right-to-left
    (hide) wave. *)
Theorem X13_sweep_wave_order :
  forall (M : JSMath) (width : Q) (i : nat) (left right : Hex.t),
    -320 < width ->
    Hex.y left = Hex.y right ->
    Hex.x left <= Hex.x right ->
    Sweep.delayOf width ltr i left <= Sweep.delayOf width ltr i right
    /\ Sweep.delayOf width rtl i right <= Sweep.delayOf width rtl i left.
Proof.
  intros M width i l r Hw Hy Hx. unfold Sweep.delayOf. rewrite Hy.
  assert (Hrange : 0 < width + Sweep.HEX_SIZE * 4 - - Sweep.HEX_SIZE * 4)
    by (unfold Sweep.HEX_SIZE; lra).
  pose proof (Qdiv_le_compat (Hex.x l - - Sweep.HEX_SIZE * 4)
                (Hex.x r - - Sweep.HEX_SIZE * 4) _ Hrange ltac:(lra)) as Hn.
  unfold Sweep.WAVE_SPREAD.
  split; apply Math_max_mono, Math_min_mono; lra.
Qed.

(** The grid of the [sweep] revision on the example phone screen. *)
Lemma X11_grid_on_phone :
  exists first last,
    In first (@generateHexGrid exampleMath sweep 375 667)
    /\ In last (@generateHexGrid exampleMath sweep 375 667)
    /\ Hex.x first == - overscan sweep /\ Hex.y first == - overscan sweep
    /\ 375 + overscan sweep <= Hex.x last
    /\ 667 + overscan sweep <= Hex.y last.
Proof.
  apply (X11_grid_overscans_viewport exampleMath sweep 375 667);
    vm_compute; discriminate.
Defined.

(** The tile of row 0, column 14 on the example phone screen. *)
Lemma X14_tile_14_on_phone :
  nth_error (@generateHexGrid exampleMath sweep 375 667) 14
  = Some (@tileAt exampleMath sweep 0 14).
Proof.
  apply (X14_grid_is_row_major exampleMath sweep phone enteringProps 0 14);
    vm_compute; split; congruence.
Defined.

(** Two tiles on the top row of the example phone screen. *)
Lemma X13_wave_order_on_phone :
  @Sweep.delayOf exampleMath 375 ltr 0 (Hex.mk 0 0 0)
  <= @Sweep.delayOf exampleMath 375 ltr 0 (Hex.mk 100 0 0)
  /\ @Sweep.delayOf exampleMath 375 rtl 0 (Hex.mk 100 0 0)
     <= @Sweep.delayOf exampleMath 375 rtl 0 (Hex.mk 0 0 0).
Proof.
  apply (X13_sweep_wave_order exampleMath 375 0 (Hex.mk 0 0 0)
                              (Hex.mk 100 0 0)).
  - lra.
  - reflexivity.
  - cbn [Hex.x]. lra.
Defined.

(** ** The page through an entrance *)

Lemma events_of_nil_tasks (rv : Revision) (log : list Task) :
  forall p, events_of log = [] -> stable p ->
            fold_left (deliverTask rv) log p = p.
Proof.
  induction log as [|t rest IH]; intros p Hnil Hs; [reflexivity|].
  rewrite events_of_cons in Hnil. apply app_eq_nil in Hnil.
  destruct Hnil as [Ht Hrest].
  cbn [fold_left]. unfold deliverTask. rewrite Ht. cbn [fold_left].
  rewrite (render_stable rv p Hs). now apply IH.
Qed.



Lemma enteringWith_stable content origin target navs runs :
  stable (enteringWith content origin target navs runs).
Proof. reflexivity. Qed.





(** ** Location changes, clicks and the deferred navigation *)

(** X16: on a page that is not exiting, a change of [location.pathname]
    puts the page into the entering phase with the canvas shown and the
    content hidden; coming from the visible phase the render starts one
    reveal run, coming from an entrance whose canvas is shown it starts
    none (the handlers of the reveal canvas have no dependencies); and exit
    requests are accepted afterwards. *)
Theorem X16_location_change_reenters :
  forall (rv : Revision) (p : Page),
    stable p ->
    phase (rendered p) <> exiting ->
    let p' := render rv (onLocationChange p) in
    phase (rendered p') = entering
    /\ showContent (rendered p') = false
    /\ showCanvas (rendered p') = true
    /\ stable p'
    /\ navigations p' = navigations p
    /\ exitTarget p' = exitTarget p
    /\ (phase (rendered p) = visible -> started p' = started p ++ [reveal])
    /\ (phase (rendered p) = entering -> showCanvas (rendered p) = true ->
        started p' = started p)
    /\ (forall pf r, exitTarget (request rv pf p' r) = Some (targetPath r)).
Proof.
  intros rv p Hs Hnot. cbn zeta. unfold stable in Hs. clear Hnot.
  destruct p as [[ph sc cv eo] q t n st]. cbn in Hs. subst q.
  unfold onLocationChange, enqueue, render, stable.
  cbn [rendered queued exitTarget navigations started setPhase setShowCanvas
       setShowContent phase showContent showCanvas exitOrigin].
  repeat split.
  - intros ->. reflexivity.
  - intros -> ->. unfold startsRun, canvasProps.
    cbn [phase showCanvas isActive negb setPhase setShowCanvas
         setShowContent]. rewrite same_deps_refl.
    now rewrite app_nil_r.
  - intros pf r. unfold request, handleExit. cbn.
    destruct rv, (clickX r), (clickY r); reflexivity.
Qed.

Lemma exitRun_before_end {M : JSMath} (rv : Revision) (pf : Platform)
      (r : ExitRequest) (ticks : list Q) (p0 : Page) :
  phase (rendered p0) <> exiting ->
  canvasRef pf = true -> getContext2d pf = true ->
  prefersReducedMotion pf = false -> drivenToEnd rv ticks = false ->
  let p := fst (exitRun rv pf [r] ticks p0) in
  navigations p = navigations p0
  /\ exitTarget p = Some (targetPath r)
  /\ phase (rendered p) = exiting
  /\ started p = started p0 ++ [hide].
Proof.
  intros Hp Hcv Hctx Hm Hend. cbn zeta. unfold exitRun.
  destruct (requestExits_last rv pf [] r p0 Hp)
    as (Hr & Ht & Hn & Hst & Hph & Hsc).
  cbn zeta in *. cbn [last] in Ht.
  set (p1 := requestExits rv pf [r] p0) in *.
  assert (Hold : phase (rendered p1) <> exiting) by now rewrite Hr.
  destruct (startsRun_exit rv (rendered p1) (queued p1) Hold Hph Hsc)
    as (pr & Hrun & Hdir & Hact & Hoc & Hop).
  rewrite Hrun. cbn [fst].
  set (p2 := render rv p1).
  assert (Hp2 : rendered p2 = queued p1 /\ queued p2 = queued p1
                /\ exitTarget p2 = exitTarget p1
                /\ navigations p2 = navigations p1
                /\ started p2 = started p1 ++ [hide]).
  { unfold p2, render. cbn [rendered queued exitTarget navigations started].
    rewrite Hrun, Hdir. auto. }
  destruct Hp2 as (H2r & H2q & H2t & H2n & H2s).
  assert (Hstable : stable p2) by (unfold stable; now rewrite H2r, H2q).
  assert (Hready : surfaceReady pf pr = true)
    by (unfold surfaceReady; now rewrite Hact, Hcv, Hctx).
  assert (Hevs : events_of (run rv pf pr noRefs ticks) = []).
  { rewrite (run_animated_events rv pf pr noRefs ticks Hready Hm).
    destruct ticks as [|first rest]; [reflexivity|].
    rewrite frames_first by reflexivity. cbn [partialFired hexesRef].
    match goal with
    | |- events_of (frames rv pf pr ?refs ?pending rest) = [] =>
        pose proof (frames_events_shape rv pf pr rest refs pending) as Hs;
        pose proof (frames_no_complete_before_end rv pf pr rest refs first
                      eq_refl Hend) as Hno
    end.
    cbn zeta in Hs. cbn [partialFired] in Hs.
    unfold partialCall, completeCall in Hs. rewrite Hop, Hoc in Hs.
    cbn [andb call app] in Hs.
    destruct Hs as [Hs | [Hs | Hs]]; try exact Hs.
    exfalso. apply Hno. rewrite Hs. now left. }
  rewrite (events_of_nil_tasks rv _ p2 Hevs Hstable).
  rewrite H2n, H2t, H2r, H2s, Hn, Ht, Hph, Hst. auto.
Qed.

Lemma truthy_nonempty (s : string) :
  s <> EmptyString -> truthy (Some s) = true.
Proof.
  intros Hne. cbn [truthy]. destruct (String.eqb s EmptyString) eqn:He;
    [|reflexivity].
  apply String.eqb_eq in He. contradiction.
Qed.

(** X17: the navigation of an exit is deferred to the end of the hide run
    and happens once: for a non-empty target requested on a page at rest
    (visible phase, nothing waiting for a render), [navigate] is called with
    the target and the slot is cleared when the run completes, and as long
    as the run has not completed nothing was navigated and the slot still
    holds the target.  The page stays in the exiting phase either way, with
    one hide run started. *)
Theorem X17_exit_navigates_once_at_completion :
  forall (M : JSMath) (rv : Revision) (pf : Platform) (r : ExitRequest)
         (ticks : list Q) (p0 : Page),
    targetPath r <> EmptyString ->
    stable p0 ->
    phase (rendered p0) = visible ->
    canvasRef pf = true ->
    getContext2d pf = true ->
    let p := fst (exitRun rv pf [r] ticks p0) in
    (prefersReducedMotion pf = true \/ drivenToEnd rv ticks = true ->
     navigations p = navigations p0 ++ [targetPath r]
     /\ exitTarget p = None)
    /\ (prefersReducedMotion pf = false -> drivenToEnd rv ticks = false ->
        navigations p = navigations p0
        /\ exitTarget p = Some (targetPath r))
    /\ phase (rendered p) = exiting
    /\ started p = started p0 ++ [hide].
Proof.
  intros M rv pf r ticks p0 Hne Hrest Hvis Hcv Hctx. cbn zeta.
  assert (Hp : phase (rendered p0) <> exiting)
    by (rewrite Hvis; discriminate).
  destruct (prefersReducedMotion pf) eqn:Hm;
    [|destruct (drivenToEnd rv ticks) eqn:Hend].
  - destruct (exitRun_outcome rv pf r [] ticks p0 Hp Hcv Hctx
                (or_introl Hm)) as (Hst & _ & _ & Hph & Hslot).
    cbn zeta in *. cbn [last] in Hslot.
    rewrite (truthy_nonempty _ Hne) in Hslot.
    split; [intros _; exact Hslot|].
    split; [intros Hx; discriminate|]. split; assumption.
  - destruct (exitRun_outcome rv pf r [] ticks p0 Hp Hcv Hctx
                (or_intror Hend)) as (Hst & _ & _ & Hph & Hslot).
    cbn zeta in *. cbn [last] in Hslot.
    rewrite (truthy_nonempty _ Hne) in Hslot.
    split; [intros _; exact Hslot|].
    split; [intros _ Hx; discriminate|]. split; assumption.
  - destruct (exitRun_before_end rv pf r ticks p0 Hp Hcv Hctx Hm Hend)
      as (Hn & Ht & Hph & Hst).
    cbn zeta in *.
    split; [intros [Hx | Hx]; discriminate|].
    split; [intros _ _; split; assumption|]. split; assumption.
Qed.

(** X19: in the [radial] revision the hide wave starts where the link was
    clicked: for a window of non-zero width and height, the run started by
    the render after the click has an origin that, scaled back by the window
    size as the effect does before it assigns the delays, is the click
    position. *)
Theorem X19_radial_exit_origin_is_click :
  forall (pf : Platform) (to : string) (clientX clientY : Q) (p : Page),
    phase (rendered p) <> exiting ->
    ~ innerWidth pf == 0 ->
    ~ innerHeight pf == 0 ->
    exists p' pr,
      snd (handleClick radial pf to clientX clientY (Some p)) = Some p'
      /\ startsRun radial (rendered p') (queued p') = Some pr
      /\ direction pr = hide
      /\ originX pr * innerWidth pf == clientX
      /\ originY pr * innerHeight pf == clientY.
Proof.
  intros pf to cx cy p Hp Hw Hh.
  unfold handleClick, handleExit. cbn [snd].
  destruct (phase (rendered p)) eqn:Hph; try contradiction;
    cbn [is_exiting]; eexists; eexists; (split; [reflexivity|]);
    unfold startsRun, canvasProps, enqueue;
    cbn [rendered queued phase showCanvas setPhase setShowCanvas
         setShowContent setExitOrigin exitOrigin isActive negb fst snd];
    rewrite ?Hph; unfold same_deps;
    cbn [isActive direction same_direction]; rewrite ?andb_false_r;
    cbn [andb];
    (split; [reflexivity|]); cbn [direction originX originY];
    (split; [reflexivity|]); split; field; assumption.
Qed.


(** A location change on the page at rest. *)
Lemma X16_location_change_at_rest :
  phase (rendered (render sweep (onLocationChange restingPage))) = entering.
Proof.
  apply (X16_location_change_reenters sweep restingPage).
  - reflexivity.
  - discriminate.
Defined.

(** An exit to the publications page from the page at rest, on the example
    phone screen. *)
Lemma X17_exit_to_publications :
  navigations (fst (@exitRun exampleMath sweep phone [exitTo "/publications"]
                             [0; 500; 1000] restingPage))
  = ["/publications"%string].
Proof.
  destruct (X17_exit_navigates_once_at_completion
              exampleMath sweep phone (exitTo "/publications") [0; 500; 1000]
              restingPage ltac:(discriminate) eq_refl eq_refl
              eq_refl eq_refl) as (Hdone & _).
  destruct (Hdone (or_intror eq_refl)) as [Hnav _]. exact Hnav.
Defined.

(** A click at (30, 40) on the page at rest, on the example phone screen. *)
Lemma X19_click_on_phone :
  exists p' pr,
    snd (handleClick radial phone "/publications" 30 40 (Some restingPage))
    = Some p'
    /\ startsRun radial (rendered p') (queued p') = Some pr
    /\ direction pr = hide
    /\ originX pr * innerWidth phone == 30
    /\ originY pr * innerHeight phone == 40.
Proof.
  apply (X19_radial_exit_origin_is_click phone "/publications" 30 40
                                         restingPage);
    cbn; discriminate.
Defined.

(** X20: without a drawing surface the page is never told anything: the run
    of the mounted canvas invokes no handler and leaves the page exactly as
    it was, so a page that is entering keeps its content hidden and a page
    that is exiting never navigates, whatever the clock delivers. *)
Theorem X20_missing_surface_leaves_page_waiting :
  forall (M : JSMath) (rv : Revision) (pf : Platform) (ticks : list Q)
         (p : Page),
    stable p ->
    canvasRef pf = false \/ getContext2d pf = false ->
    fst (canvasRun rv pf ticks p) = p
    /\ events_of (snd (canvasRun rv pf ticks p)) = [].
Proof.
  intros M rv pf ticks p Hs Hmiss. unfold canvasRun.
  destruct (canvasProps (rendered p)) as [pr|]; [|split; reflexivity].
  assert (Hready : surfaceReady pf pr = false).
  { unfold surfaceReady. destruct Hmiss as [-> | ->];
      now rewrite ?andb_false_r. }
  destruct (run_not_ready rv pf pr noRefs ticks Hready) as [_ Hrun].
  cbn [fst snd]. rewrite Hrun. split; [|reflexivity].
  now apply events_of_nil_tasks.
Qed.

(** A freshly mounted page on the example phone screen without a canvas
    element: the content stays hidden. *)
Lemma X20_fresh_page_without_canvas :
  fst (@canvasRun exampleMath sweep phoneNoCanvas [0; 475; 950] freshPage)
  = freshPage.
Proof.
  apply (X20_missing_surface_leaves_page_waiting
           exampleMath sweep phoneNoCanvas [0; 475; 950] freshPage).
  - reflexivity.
  - left. reflexivity.
Defined.
